(** * Food-pantry repository engine: data model, operations, store and reports

    A shallow embedding of the client-side repository
    (RepositoryProvider and its helpers) and of the date-range
    report of ReportsPage, followed by the properties checked against it.

    Conventions of the embedding.
    - JavaScript strings are [string]s: a string is the sequence of its
      code units, each below 256 (the Latin-1 range); strings holding
      other code units are not represented.  [<] and [>] on strings are
      the code-unit lexicographic order [String.ltb].
    - [quantity], [reorderThreshold] and [visitWarningDays] are integers
      ([Z]); weights, values and coordinates are rationals ([Q]), always
      compared with Leibniz equality.  NaN and the infinities are not
      represented.
    - [new Date().toISOString()] and [uuid()] read the environment: every
      operation takes the values it reads there as extra arguments.
    - A property that may be [undefined] at run time is an [option]; so is
      the [id] of an item or of a client, which an update can set to
      [undefined]. *)

From Stdlib Require Import ZArith QArith String Ascii List Bool Lia.
From stdpp Require Import base option list gmap strings fin_maps pretty.
Import ListNotations.

Local Open Scope Z_scope.
Local Open Scope string_scope.
Local Open Scope list_scope.

(** ** JavaScript helpers *)

(** One property of an object literal typed [Partial<T>]: absent, or present
    and holding either a value or [undefined]. *)
Inductive property (A : Type) : Type :=
| Absent
| Given (v : option A).
Arguments Absent {A}.
Arguments Given {A} v.

(** [partial.k]: reading an absent property gives [undefined]. *)
Definition read {A} (p : property A) : option A :=
  match p with Absent => None | Given v => v end.

(** [{...existing, ...partial}] at one property that may hold [undefined]. *)
Definition spread {A} (old : option A) (p : property A) : option A :=
  match p with Absent => old | Given v => v end.

(** The same at a property which, when present, holds a value. *)
Definition spread_def {A} (old : A) (p : option A) : A :=
  match p with None => old | Some v => v end.

(** [a ?? b]. *)
Definition nullish {A} (a : option A) (b : A) : A :=
  match a with Some v => v | None => b end.

(** Truthiness of a string-or-undefined: defined and not empty. *)
Definition truthy (s : option string) : bool :=
  match s with
  | Some EmptyString => false
  | Some _ => true
  | None => false
  end.

(** The white space and line terminators that [trim] strips, among the code
    units represented: TAB, LF, VT, FF, CR, SPACE and NO-BREAK SPACE. *)
Definition is_space (c : ascii) : bool :=
  let n := nat_of_ascii c in
  ((9 <=? n)%nat && (n <=? 13)%nat) || (n =? 32)%nat || (n =? 160)%nat.

Fixpoint trim_start (s : string) : string :=
  match s with
  | EmptyString => EmptyString
  | String c r => if is_space c then trim_start r else s
  end.

Fixpoint trim_end (s : string) : string :=
  match s with
  | EmptyString => EmptyString
  | String c r =>
      match trim_end r with
      | EmptyString => if is_space c then EmptyString else String c EmptyString
      | r' => String c r'
      end
  end.

(** [s.trim()]. *)
Definition trim (s : string) : string := trim_end (trim_start s).

(** [s.slice(0, n)]. *)
Definition slice0 (n : nat) (s : string) : string := substring 0 n s.

(** ** Domain state model *)

Record InventoryItem := mkInventoryItem {
  item_id : option string;
  item_name : string;
  item_category : string;
  item_barcode : option string;
  item_quantity : Z;
  item_weightPerUnitLbs : Q;
  item_valuePerUnitUsd : Q;
  item_reorderThreshold : option Z;
  item_allergens : option (list string);
  item_createdAt : string;
  item_updatedAt : string
}.

Record ClientRecord := mkClientRecord {
  client_id : option string;
  client_name : string;
  client_identifier : string;
  client_contact : option string;
  client_allergies : option (list string);
  client_notes : option string;
  client_createdAt : string;
  client_updatedAt : string
}.

Record TransactionItem := mkTransactionItem {
  line_itemId : option string;
  line_name : string;
  line_quantity : Z;
  line_weightPerUnitLbs : Q;
  line_valuePerUnitUsd : Q
}.

Inductive TransactionType := IN | OUT.

Record GeoLocation := mkGeoLocation {
  latitude : Q;
  longitude : Q;
  accuracy : option Q
}.

Record Transaction := mkTransaction {
  tx_id : string;
  tx_type : TransactionType;
  tx_timestamp : string;
  tx_items : list TransactionItem;
  tx_source : option string;
  tx_donor : option string;
  tx_clientId : option string;
  tx_clientName : option string;
  tx_location : option GeoLocation
}.

Record Settings := mkSettings {
  visitWarningDays : Z
}.

Record BarcodeCacheEntry := mkBarcodeCacheEntry {
  cache_name : option string;
  cache_category : option string;
  cache_weightPerUnitLbs : option Q;
  cache_allergens : option (list string);
  cachedAt : string
}.

Record RepositoryState := mkRepositoryState {
  inventory : list InventoryItem;
  clients : list ClientRecord;
  transactions : list Transaction;
  settings : Settings;
  barcodeCache : gmap string BarcodeCacheEntry;
  sources : list string;
  donors : list string
}.

Definition defaultState : RepositoryState :=
  {| inventory := [];
     clients := [];
     transactions := [];
     settings := {| visitWarningDays := 7 |};
     barcodeCache := ∅;
     sources := ["Donation"; "Purchase"; "Transfer"; "Other"];
     donors := ["Morgan State University"; "Maryland Food Bank"; "Local Grocery"] |}.

(** [{...prev, k: v}] for the fields the engine replaces. *)
Definition with_inventory (prev : RepositoryState) (v : list InventoryItem) :=
  {| inventory := v; clients := clients prev; transactions := transactions prev;
     settings := settings prev; barcodeCache := barcodeCache prev;
     sources := sources prev; donors := donors prev |}.

Definition with_clients (prev : RepositoryState) (v : list ClientRecord) :=
  {| inventory := inventory prev; clients := v; transactions := transactions prev;
     settings := settings prev; barcodeCache := barcodeCache prev;
     sources := sources prev; donors := donors prev |}.

Definition with_transactions (prev : RepositoryState) (v : list Transaction) :=
  {| inventory := inventory prev; clients := clients prev; transactions := v;
     settings := settings prev; barcodeCache := barcodeCache prev;
     sources := sources prev; donors := donors prev |}.

Definition with_settings (prev : RepositoryState) (v : Settings) :=
  {| inventory := inventory prev; clients := clients prev;
     transactions := transactions prev; settings := v;
     barcodeCache := barcodeCache prev; sources := sources prev;
     donors := donors prev |}.

Definition with_barcodeCache (prev : RepositoryState)
    (v : gmap string BarcodeCacheEntry) :=
  {| inventory := inventory prev; clients := clients prev;
     transactions := transactions prev; settings := settings prev;
     barcodeCache := v; sources := sources prev; donors := donors prev |}.

Definition with_sources (prev : RepositoryState) (v : list string) :=
  {| inventory := inventory prev; clients := clients prev;
     transactions := transactions prev; settings := settings prev;
     barcodeCache := barcodeCache prev; sources := v; donors := donors prev |}.

Definition with_donors (prev : RepositoryState) (v : list string) :=
  {| inventory := inventory prev; clients := clients prev;
     transactions := transactions prev; settings := settings prev;
     barcodeCache := barcodeCache prev; sources := sources prev; donors := v |}.

(** ** Repository engine *)

(** [setState(f)] queues the updater [f].  Queued updaters run in the order
    in which they were queued, each on the state its predecessor returned;
    an update requested while an updater runs joins the queue behind it.
    An operation is given the snapshot [state] its closure captured and
    yields the updaters it queues; [step] below runs an operation on a
    settled state, where the snapshot and the pending state coincide. *)
Definition updater : Type := RepositoryState → RepositoryState.

Definition flush (queue : list updater) (s : RepositoryState) : RepositoryState :=
  fold_left (fun acc f => f acc) queue s.

(** [a === b] on strings-or-undefined. *)
Definition same (a b : option string) : bool := bool_decide (a = b).

(** *** addOrUpdateItem *)

(** [Partial<InventoryItem> & { name: string }].  [id] and the properties
    that are optional in [InventoryItem] may be present and hold [undefined]
    (the inventory form sends [id: undefined] for a new item); any other
    property, when present, holds a value. *)
Record ItemPartial := mkItemPartial {
  p_id : property string;
  p_name : string;
  p_category : option string;
  p_barcode : property string;
  p_quantity : option Z;
  p_weightPerUnitLbs : option Q;
  p_valuePerUnitUsd : option Q;
  p_reorderThreshold : property Z;
  p_allergens : property (list string);
  p_createdAt : option string;
  p_updatedAt : option string
}.

(** [(partial.id && inventory.find(by id)) ||
     (partial.barcode ? inventory.find(by barcode) : undefined)]. *)
Definition existing_item (state : RepositoryState) (partial : ItemPartial)
  : option InventoryItem :=
  let by_id :=
    if truthy (read (p_id partial))
    then List.find (fun i => same (item_id i) (read (p_id partial))) (inventory state)
    else None in
  match by_id with
  | Some e => Some e
  | None =>
      if truthy (read (p_barcode partial))
      then List.find (fun i => truthy (item_barcode i)
                               && same (item_barcode i) (read (p_barcode partial)))
                     (inventory state)
      else None
  end.

(** [{...existing, ...partial, updatedAt: now}]. *)
Definition updated_item (existing : InventoryItem) (partial : ItemPartial)
    (now : string) : InventoryItem :=
  {| item_id := spread (item_id existing) (p_id partial);
     item_name := p_name partial;
     item_category := spread_def (item_category existing) (p_category partial);
     item_barcode := spread (item_barcode existing) (p_barcode partial);
     item_quantity := spread_def (item_quantity existing) (p_quantity partial);
     item_weightPerUnitLbs :=
       spread_def (item_weightPerUnitLbs existing) (p_weightPerUnitLbs partial);
     item_valuePerUnitUsd :=
       spread_def (item_valuePerUnitUsd existing) (p_valuePerUnitUsd partial);
     item_reorderThreshold :=
       spread (item_reorderThreshold existing) (p_reorderThreshold partial);
     item_allergens := spread (item_allergens existing) (p_allergens partial);
     item_createdAt := spread_def (item_createdAt existing) (p_createdAt partial);
     item_updatedAt := now |}.

(** [partial.barcode?.trim() || undefined]. *)
Definition trimmed_barcode (b : option string) : option string :=
  match b with
  | Some s => if truthy (Some (trim s)) then Some (trim s) else None
  | None => None
  end.

Definition created_item (partial : ItemPartial) (now uuid : string) : InventoryItem :=
  {| item_id := Some (nullish (read (p_id partial)) uuid);
     item_name := p_name partial;
     item_category := nullish (p_category partial) "Uncategorized";
     item_barcode := trimmed_barcode (read (p_barcode partial));
     item_quantity := nullish (p_quantity partial) 0;
     item_weightPerUnitLbs := nullish (p_weightPerUnitLbs partial) 0%Q;
     item_valuePerUnitUsd := nullish (p_valuePerUnitUsd partial) 0%Q;
     item_reorderThreshold := read (p_reorderThreshold partial);
     item_allergens := read (p_allergens partial);
     item_createdAt := now;
     item_updatedAt := now |}.

(** The returned item and the update queued. *)
Definition addOrUpdateItem (state : RepositoryState) (partial : ItemPartial)
    (now uuid : string) : InventoryItem * updater :=
  match existing_item state partial with
  | Some existing =>
      let updated := updated_item existing partial now in
      (updated,
       fun prev =>
         with_inventory prev
           (map (fun i => if same (item_id i) (item_id existing) then updated else i)
                (inventory prev)))
  | None =>
      let item := created_item partial now uuid in
      (item, fun prev => with_inventory prev (inventory prev ++ [item]))
  end.

(** *** adjustItemQuantity *)

Definition set_quantity (i : InventoryItem) (q : Z) (stamp : string) : InventoryItem :=
  {| item_id := item_id i; item_name := item_name i;
     item_category := item_category i; item_barcode := item_barcode i;
     item_quantity := q;
     item_weightPerUnitLbs := item_weightPerUnitLbs i;
     item_valuePerUnitUsd := item_valuePerUnitUsd i;
     item_reorderThreshold := item_reorderThreshold i;
     item_allergens := item_allergens i;
     item_createdAt := item_createdAt i;
     item_updatedAt := stamp |}.

Definition adjustItemQuantity (itemId : string) (delta : Z) (now : string) : updater :=
  fun prev =>
    with_inventory prev
      (map (fun item =>
              if negb (same (item_id item) (Some itemId)) then item
              else set_quantity item (Z.max 0 (item_quantity item + delta)) now)
           (inventory prev)).

(** *** upsertClient *)

(** [Partial<ClientRecord> & { name: string; identifier: string }], with the
    same reading of its properties as [ItemPartial]. *)
Record ClientPartial := mkClientPartial {
  cp_id : property string;
  cp_name : string;
  cp_identifier : string;
  cp_contact : property string;
  cp_allergies : property (list string);
  cp_notes : property string;
  cp_createdAt : option string;
  cp_updatedAt : option string
}.

Definition existing_client (state : RepositoryState) (partial : ClientPartial)
  : option ClientRecord :=
  let by_id :=
    if truthy (read (cp_id partial))
    then List.find (fun c => same (client_id c) (read (cp_id partial))) (clients state)
    else None in
  match by_id with
  | Some e => Some e
  | None =>
      List.find (fun c => bool_decide (client_identifier c = cp_identifier partial))
                (clients state)
  end.

Definition updated_client (existing : ClientRecord) (partial : ClientPartial)
    (now : string) : ClientRecord :=
  {| client_id := spread (client_id existing) (cp_id partial);
     client_name := cp_name partial;
     client_identifier := cp_identifier partial;
     client_contact := spread (client_contact existing) (cp_contact partial);
     client_allergies := spread (client_allergies existing) (cp_allergies partial);
     client_notes := spread (client_notes existing) (cp_notes partial);
     client_createdAt := spread_def (client_createdAt existing) (cp_createdAt partial);
     client_updatedAt := now |}.

Definition created_client (partial : ClientPartial) (now uuid : string) : ClientRecord :=
  {| client_id := Some (nullish (read (cp_id partial)) uuid);
     client_name := cp_name partial;
     client_identifier := cp_identifier partial;
     client_contact := read (cp_contact partial);
     client_allergies := read (cp_allergies partial);
     client_notes := read (cp_notes partial);
     client_createdAt := now;
     client_updatedAt := now |}.

Definition upsertClient (state : RepositoryState) (partial : ClientPartial)
    (now uuid : string) : ClientRecord * updater :=
  match existing_client state partial with
  | Some existing =>
      let updated := updated_client existing partial now in
      (updated,
       fun prev =>
         with_clients prev
           (map (fun c => if same (client_id c) (client_id existing) then updated else c)
                (clients prev)))
  | None =>
      let client := created_client partial now uuid in
      (client, fun prev => with_clients prev (clients prev ++ [client]))
  end.

(** *** recordInbound *)

Record InboundOptions := mkInboundOptions {
  in_itemId : string;
  in_quantity : Z;
  in_source : option string;
  in_donor : option string;
  in_timestamp : option string;
  in_location : option GeoLocation
}.

Definition inbound_tx (item : InventoryItem) (options : InboundOptions)
    (timestamp uuid : string) : Transaction :=
  {| tx_id := uuid;
     tx_type := IN;
     tx_timestamp := timestamp;
     tx_items :=
       [ {| line_itemId := item_id item;
            line_name := item_name item;
            line_quantity := in_quantity options;
            line_weightPerUnitLbs := item_weightPerUnitLbs item;
            line_valuePerUnitUsd := item_valuePerUnitUsd item |} ];
     tx_source := in_source options;
     tx_donor := in_donor options;
     tx_clientId := None;
     tx_clientName := None;
     tx_location := in_location options |}.

Definition inbound_updater (options : InboundOptions) (timestamp uuid : string)
  : updater :=
  fun prev =>
    match List.find (fun i => same (item_id i) (Some (in_itemId options)))
                    (inventory prev) with
    | None => prev
    | Some item =>
        let inventory' :=
          map (fun i =>
                 if same (item_id i) (Some (in_itemId options))
                 then set_quantity i (item_quantity i + in_quantity options) timestamp
                 else i)
              (inventory prev) in
        let tx := inbound_tx item options timestamp uuid in
        {| inventory := inventory';
           clients := clients prev;
           transactions := tx :: transactions prev;
           settings := settings prev;
           barcodeCache := barcodeCache prev;
           sources := sources prev;
           donors := donors prev |}
    end.

(** The updates queued by [recordInbound(options)]. *)
Definition recordInbound (options : InboundOptions) (now uuid : string)
  : list updater :=
  let timestamp := nullish (in_timestamp options) now in
  if (in_quantity options =? 0)%Z || (in_quantity options <=? 0)%Z then []
  else [inbound_updater options timestamp uuid].

(** *** recordOutbound *)

Record CartLine := mkCartLine {
  cart_itemId : string;
  cart_quantity : Z
}.

Record OutboundClient := mkOutboundClient {
  oc_id : option string;
  oc_name : string;
  oc_identifier : string;
  oc_contact : option string
}.

Record OutboundOptions := mkOutboundOptions {
  out_client : OutboundClient;
  out_items : list CartLine;
  out_timestamp : option string;
  out_location : option GeoLocation
}.

(** The object literal handed to [upsertClient]: [id] and [contact] are
    present even when they hold [undefined]. *)
Definition outbound_partial (c : OutboundClient) : ClientPartial :=
  {| cp_id := Given (oc_id c);
     cp_name := oc_name c;
     cp_identifier := oc_identifier c;
     cp_contact := Given (oc_contact c);
     cp_allergies := Absent;
     cp_notes := Absent;
     cp_createdAt := None;
     cp_updatedAt := None |}.

(** [xs.filter(Boolean)] on objects-or-undefined. *)
Fixpoint filter_Boolean {A} (xs : list (option A)) : list A :=
  match xs with
  | [] => []
  | Some x :: r => x :: filter_Boolean r
  | None :: r => filter_Boolean r
  end.

Definition outbound_inventory (prev : RepositoryState) (items : list CartLine)
    (timestamp : string) : list InventoryItem :=
  map (fun item =>
         match List.find (fun i => same (Some (cart_itemId i)) (item_id item)) items with
         | None => item
         | Some cartItem =>
             set_quantity item (Z.max 0 (item_quantity item - cart_quantity cartItem))
                          timestamp
         end)
      (inventory prev).

Definition outbound_line (prev : RepositoryState) (i : CartLine)
  : option TransactionItem :=
  match List.find (fun item => same (item_id item) (Some (cart_itemId i)))
                  (inventory prev) with
  | None => None
  | Some base =>
      Some {| line_itemId := item_id base;
              line_name := item_name base;
              line_quantity := cart_quantity i;
              line_weightPerUnitLbs := item_weightPerUnitLbs base;
              line_valuePerUnitUsd := item_valuePerUnitUsd base |}
  end.

Definition outbound_txItems (prev : RepositoryState) (items : list CartLine)
  : list TransactionItem :=
  filter_Boolean (map (outbound_line prev) items).

Definition outbound_tx (client : ClientRecord) (txItems : list TransactionItem)
    (options : OutboundOptions) (timestamp uuid : string) : Transaction :=
  {| tx_id := uuid;
     tx_type := OUT;
     tx_timestamp := timestamp;
     tx_items := txItems;
     tx_source := None;
     tx_donor := None;
     tx_clientId := client_id client;
     tx_clientName := Some (client_name client);
     tx_location := out_location options |}.

(** The updater of [recordOutbound], after its call of [upsertClient] has
    returned [client]. *)
Definition outbound_updater (client : ClientRecord) (options : OutboundOptions)
    (timestamp uuid : string) : updater :=
  fun prev =>
    let inventory' := outbound_inventory prev (out_items options) timestamp in
    let txItems := outbound_txItems prev (out_items options) in
    match txItems with
    | [] => prev
    | _ :: _ =>
        let tx := outbound_tx client txItems options timestamp uuid in
        {| inventory := inventory';
           clients :=
             if existsb (fun c => same (client_id c) (client_id client)) (clients prev)
             then map (fun c => if same (client_id c) (client_id client)
                                then client else c)
                      (clients prev)
             else client :: clients prev;
           transactions := tx :: transactions prev;
           settings := settings prev;
           barcodeCache := barcodeCache prev;
           sources := sources prev;
           donors := donors prev |}
    end.

(** The updates queued by [recordOutbound(options)]: its own updater and,
    behind it, the update that the [upsertClient] call inside that updater
    requests.  [upsertClient] resolves the client against the snapshot
    [state] of its closure. *)
Definition recordOutbound (state : RepositoryState) (options : OutboundOptions)
    (now now_client uuid_client uuid_tx : string) : list updater :=
  let timestamp := nullish (out_timestamp options) now in
  match out_items options with
  | [] => []
  | _ :: _ =>
      let '(client, client_update) :=
        upsertClient state (outbound_partial (out_client options))
                     now_client uuid_client in
      [outbound_updater client options timestamp uuid_tx; client_update]
  end.

(** *** updateSettings, upsertBarcodeCache, addSource, addDonor *)

Record SettingsPartial := mkSettingsPartial {
  sp_visitWarningDays : option Z
}.

Definition updateSettings (partial : SettingsPartial) : updater :=
  fun prev =>
    with_settings prev
      {| visitWarningDays :=
           spread_def (visitWarningDays (settings prev)) (sp_visitWarningDays partial) |}.

(** [Omit<BarcodeCacheEntry, "cachedAt">]. *)
Record CacheFields := mkCacheFields {
  e_name : option string;
  e_category : option string;
  e_weightPerUnitLbs : option Q;
  e_allergens : option (list string)
}.

(** [{...entry, cachedAt}]. *)
Definition cache_entry (entry : CacheFields) (stamp : string) : BarcodeCacheEntry :=
  {| cache_name := e_name entry;
     cache_category := e_category entry;
     cache_weightPerUnitLbs := e_weightPerUnitLbs entry;
     cache_allergens := e_allergens entry;
     cachedAt := stamp |}.

Definition upsertBarcodeCache (barcode : string) (entry : CacheFields)
    (now : string) : updater :=
  fun prev =>
    with_barcodeCache prev (<[barcode := cache_entry entry now]> (barcodeCache prev)).

Definition addSource (source : string) : updater :=
  fun prev =>
    if bool_decide (source ∈ sources prev) then prev
    else with_sources prev (sources prev ++ [source]).

Definition addDonor (donor : string) : updater :=
  fun prev =>
    if bool_decide (donor ∈ donors prev) then prev
    else with_donors prev (donors prev ++ [donor]).

(** *** Sequences of operations *)

Inductive Op :=
| AddOrUpdateItem (partial : ItemPartial) (now uuid : string)
| AdjustItemQuantity (itemId : string) (delta : Z) (now : string)
| RecordInbound (options : InboundOptions) (now uuid : string)
| RecordOutbound (options : OutboundOptions)
                 (now now_client uuid_client uuid_tx : string)
| UpsertClient (partial : ClientPartial) (now uuid : string)
| UpdateSettings (partial : SettingsPartial)
| UpsertBarcodeCache (barcode : string) (entry : CacheFields) (now : string)
| AddSource (source : string)
| AddDonor (donor : string).

(** The updates an operation queues when called with snapshot [state]. *)
Definition queued (state : RepositoryState) (op : Op) : list updater :=
  match op with
  | AddOrUpdateItem partial now uuid => [snd (addOrUpdateItem state partial now uuid)]
  | AdjustItemQuantity itemId delta now => [adjustItemQuantity itemId delta now]
  | RecordInbound options now uuid => recordInbound options now uuid
  | RecordOutbound options now now_client uuid_client uuid_tx =>
      recordOutbound state options now now_client uuid_client uuid_tx
  | UpsertClient partial now uuid => [snd (upsertClient state partial now uuid)]
  | UpdateSettings partial => [updateSettings partial]
  | UpsertBarcodeCache barcode entry now => [upsertBarcodeCache barcode entry now]
  | AddSource source => [addSource source]
  | AddDonor donor => [addDonor donor]
  end.

(** One operation called on a settled state. *)
Definition step (s : RepositoryState) (op : Op) : RepositoryState :=
  flush (queued s op) s.

Definition run (ops : list Op) (s : RepositoryState) : RepositoryState :=
  fold_left step ops s.

(** ** Date-range distribution report (ReportsPage) *)

Definition is_OUT (t : TransactionType) : bool :=
  match t with OUT => true | IN => false end.

(** The predicate of [repo.transactions.filter(...)] in [rangeTx]. *)
Definition in_range (from to : string) (tx : Transaction) : bool :=
  let dateOnly := slice0 10 (tx_timestamp tx) in
  if truthy (Some from) && String.ltb dateOnly from then false
  else if truthy (Some to) && String.ltb to dateOnly then false
  else is_OUT (tx_type tx).

Definition rangeTx (from to : string) (txs : list Transaction) : list Transaction :=
  List.filter (in_range from to) txs.

(** The two nested [for ... of] loops of [totals]; the accumulator is the
    pair [(totalWeight, totalValue)]. *)
Definition totals (selected : list Transaction) : Q * Q :=
  fold_left
    (fun acc tx =>
       fold_left
         (fun '(totalWeight, totalValue) item =>
            ((totalWeight + line_weightPerUnitLbs item * inject_Z (line_quantity item))%Q,
             (totalValue + line_valuePerUnitUsd item * inject_Z (line_quantity item))%Q))
         (tx_items tx) acc)
    selected (0%Q, 0%Q).

(** What the report is stated to compute: the date-only prefix lies in
    [[from, to]] for the lexicographic order, and a total is the sum, in
    ledger order, of one term per line item. *)
Definition date_within (from to : string) (tx : Transaction) : bool :=
  String.leb from (slice0 10 (tx_timestamp tx))
  && String.leb (slice0 10 (tx_timestamp tx)) to.

Definition sum_Q (terms : list Q) : Q := fold_left Qplus terms 0%Q.

Definition line_items (selected : list Transaction) : list TransactionItem :=
  concat (map tx_items selected).

(** ** Durable store adapter *)

(** JSON values; an object lists its properties in order. *)
#[local] Unset Elimination Schemes.
Inductive json :=
| JNull
| JBool (b : bool)
| JNum (n : Q)
| JStr (s : string)
| JArr (xs : list json)
| JObj (fields : list (string * json)).
#[local] Set Elimination Schemes.

Definition object : Type := list (string * json).

Fixpoint get (k : string) (o : object) : option json :=
  match o with
  | [] => None
  | (k', v) :: r => if String.eqb k k' then Some v else get k r
  end.

(** [o[k] = v]: an existing property keeps its place. *)
Fixpoint set (k : string) (v : json) (o : object) : object :=
  match o with
  | [] => [(k, v)]
  | (k', v') :: r => if String.eqb k k' then (k, v) :: r else (k', v') :: set k v r
  end.

(** The own enumerable properties a spread [...v] copies. *)
Definition own_properties (v : json) : object :=
  match v with
  | JObj fields => fields
  | JArr xs => imap (fun i x => (pretty i, x)) xs
  | JStr s => imap (fun i c => (pretty i, JStr (String c EmptyString)))
                   (list_ascii_of_string s)
  | JNull | JBool _ | JNum _ => []
  end.

(** [{...base, ...v}]. *)
Definition object_spread (base : object) (v : json) : object :=
  fold_left (fun o kv => set (fst kv) (snd kv) o) (own_properties v) base.

(** How a value of the domain model reads as JSON ([to_json]: what
    [JSON.parse(JSON.stringify(x))] holds, properties holding [undefined]
    left out) and how a JSON value is read at a type ([of_json]). *)
Class Json (A : Type) := {
  to_json : A → json;
  of_json : json → option A
}.

#[export] Instance Json_string : Json string := {|
  to_json := JStr;
  of_json j := match j with JStr s => Some s | _ => None end
|}.

#[export] Instance Json_Q : Json Q := {|
  to_json := JNum;
  of_json j := match j with JNum n => Some n | _ => None end
|}.

#[export] Instance Json_Z : Json Z := {|
  to_json z := JNum (inject_Z z);
  of_json j := match j with JNum (Qmake z 1) => Some z | _ => None end
|}.

#[export] Instance Json_list {A} `{Json A} : Json (list A) := {|
  to_json l := JArr (map to_json l);
  of_json j := match j with JArr xs => mapM of_json xs | _ => None end
|}.

(** A property that is left out when it holds [undefined]. *)
Definition optional {A} `{Json A} (k : string) (v : option A) : object :=
  match v with Some x => [(k, to_json x)] | None => [] end.

Definition required {A} `{Json A} (k : string) (v : A) : object :=
  [(k, to_json v)].

Definition get_optional {A} `{Json A} (k : string) (o : object) : option (option A) :=
  match get k o with
  | None => Some None
  | Some j => match of_json j with Some x => Some (Some x) | None => None end
  end.

Definition get_required {A} `{Json A} (k : string) (o : object) : option A :=
  match get k o with
  | None => None
  | Some j => of_json j
  end.

Definition as_object (j : json) : option object :=
  match j with JObj o => Some o | _ => None end.

#[export] Instance Json_InventoryItem : Json InventoryItem := {|
  to_json i :=
    JObj (optional "id" (item_id i)
          ++ required "name" (item_name i)
          ++ required "category" (item_category i)
          ++ optional "barcode" (item_barcode i)
          ++ required "quantity" (item_quantity i)
          ++ required "weightPerUnitLbs" (item_weightPerUnitLbs i)
          ++ required "valuePerUnitUsd" (item_valuePerUnitUsd i)
          ++ optional "reorderThreshold" (item_reorderThreshold i)
          ++ optional "allergens" (item_allergens i)
          ++ required "createdAt" (item_createdAt i)
          ++ required "updatedAt" (item_updatedAt i));
  of_json j :=
    o ← as_object j;
    id ← get_optional "id" o;
    name ← get_required "name" o;
    category ← get_required "category" o;
    barcode ← get_optional "barcode" o;
    quantity ← get_required "quantity" o;
    weight ← get_required "weightPerUnitLbs" o;
    value ← get_required "valuePerUnitUsd" o;
    threshold ← get_optional "reorderThreshold" o;
    allergens ← get_optional "allergens" o;
    created ← get_required "createdAt" o;
    updated ← get_required "updatedAt" o;
    Some (mkInventoryItem id name category barcode quantity weight value
                          threshold allergens created updated)
|}.

#[export] Instance Json_ClientRecord : Json ClientRecord := {|
  to_json c :=
    JObj (optional "id" (client_id c)
          ++ required "name" (client_name c)
          ++ required "identifier" (client_identifier c)
          ++ optional "contact" (client_contact c)
          ++ optional "allergies" (client_allergies c)
          ++ optional "notes" (client_notes c)
          ++ required "createdAt" (client_createdAt c)
          ++ required "updatedAt" (client_updatedAt c));
  of_json j :=
    o ← as_object j;
    id ← get_optional "id" o;
    name ← get_required "name" o;
    identifier ← get_required "identifier" o;
    contact ← get_optional "contact" o;
    allergies ← get_optional "allergies" o;
    notes ← get_optional "notes" o;
    created ← get_required "createdAt" o;
    updated ← get_required "updatedAt" o;
    Some (mkClientRecord id name identifier contact allergies notes created updated)
|}.

#[export] Instance Json_TransactionItem : Json TransactionItem := {|
  to_json l :=
    JObj (optional "itemId" (line_itemId l)
          ++ required "name" (line_name l)
          ++ required "quantity" (line_quantity l)
          ++ required "weightPerUnitLbs" (line_weightPerUnitLbs l)
          ++ required "valuePerUnitUsd" (line_valuePerUnitUsd l));
  of_json j :=
    o ← as_object j;
    itemId ← get_optional "itemId" o;
    name ← get_required "name" o;
    quantity ← get_required "quantity" o;
    weight ← get_required "weightPerUnitLbs" o;
    value ← get_required "valuePerUnitUsd" o;
    Some (mkTransactionItem itemId name quantity weight value)
|}.

#[export] Instance Json_TransactionType : Json TransactionType := {|
  to_json t := JStr (match t with IN => "IN" | OUT => "OUT" end);
  of_json j :=
    match j with
    | JStr s => if String.eqb s "IN" then Some IN
                else if String.eqb s "OUT" then Some OUT else None
    | _ => None
    end
|}.

#[export] Instance Json_GeoLocation : Json GeoLocation := {|
  to_json g :=
    JObj (required "latitude" (latitude g)
          ++ required "longitude" (longitude g)
          ++ optional "accuracy" (accuracy g));
  of_json j :=
    o ← as_object j;
    lat ← get_required "latitude" o;
    lon ← get_required "longitude" o;
    acc ← get_optional "accuracy" o;
    Some (mkGeoLocation lat lon acc)
|}.

#[export] Instance Json_Transaction : Json Transaction := {|
  to_json t :=
    JObj (required "id" (tx_id t)
          ++ required "type" (tx_type t)
          ++ required "timestamp" (tx_timestamp t)
          ++ required "items" (tx_items t)
          ++ optional "source" (tx_source t)
          ++ optional "donor" (tx_donor t)
          ++ optional "clientId" (tx_clientId t)
          ++ optional "clientName" (tx_clientName t)
          ++ optional "location" (tx_location t));
  of_json j :=
    o ← as_object j;
    id ← get_required "id" o;
    type ← get_required "type" o;
    timestamp ← get_required "timestamp" o;
    items ← get_required "items" o;
    source ← get_optional "source" o;
    donor ← get_optional "donor" o;
    clientId ← get_optional "clientId" o;
    clientName ← get_optional "clientName" o;
    location ← get_optional "location" o;
    Some (mkTransaction id type timestamp items source donor clientId clientName
                        location)
|}.

#[export] Instance Json_Settings : Json Settings := {|
  to_json s := JObj (required "visitWarningDays" (visitWarningDays s));
  of_json j :=
    o ← as_object j;
    days ← get_required "visitWarningDays" o;
    Some (mkSettings days)
|}.

#[export] Instance Json_BarcodeCacheEntry : Json BarcodeCacheEntry := {|
  to_json e :=
    JObj (optional "name" (cache_name e)
          ++ optional "category" (cache_category e)
          ++ optional "weightPerUnitLbs" (cache_weightPerUnitLbs e)
          ++ optional "allergens" (cache_allergens e)
          ++ required "cachedAt" (cachedAt e));
  of_json j :=
    o ← as_object j;
    name ← get_optional "name" o;
    category ← get_optional "category" o;
    weight ← get_optional "weightPerUnitLbs" o;
    allergens ← get_optional "allergens" o;
    stamp ← get_required "cachedAt" o;
    Some (mkBarcodeCacheEntry name category weight allergens stamp)
|}.

(** A [Record<string, A>]: one property per key. *)
#[export] Instance Json_Record {A} `{Json A} : Json (gmap string A) := {|
  to_json m := JObj (map (fun kv => (fst kv, to_json (snd kv))) (map_to_list m));
  of_json j :=
    o ← as_object j;
    l ← mapM (fun kv => v ← of_json (snd kv); Some (fst kv, v)) o;
    Some (list_to_map l)
|}.

(** The state as the object held in memory and written to the store. *)
Definition state_object (s : RepositoryState) : object :=
  required "inventory" (inventory s)
  ++ required "clients" (clients s)
  ++ required "transactions" (transactions s)
  ++ required "settings" (settings s)
  ++ required "barcodeCache" (barcodeCache s)
  ++ required "sources" (sources s)
  ++ required "donors" (donors s).

(** The reading of an object at type [RepositoryState] that the cast
    [as RepositoryState] takes for granted; [None] when a property is
    missing or has another shape. *)
Definition as_RepositoryState (o : object) : option RepositoryState :=
  inv ← get_required "inventory" o;
  cl ← get_required "clients" o;
  txs ← get_required "transactions" o;
  st ← get_required "settings" o;
  cache ← get_required "barcodeCache" o;
  src ← get_required "sources" o;
  don ← get_required "donors" o;
  Some (mkRepositoryState inv cl txs st cache src don).

(** A string held by the store: the empty string, a text that is not JSON,
    or a text that [JSON.parse] reads as the value [v]. *)
Inductive text :=
| EmptyText
| Malformed
| Text (v : json).

(** [window.localStorage] at [STORAGE_KEY]: the string stored there, if any,
    and whether [getItem] and [setItem] succeed or throw. *)
Record Storage := mkStorage {
  stored : option text;
  readable : bool;
  writable : bool
}.

(** The global scope: [None] where [window] is undefined. *)
Definition Window : Type := option Storage.

Inductive outcome (A : Type) : Type :=
| Return (a : A)
| Throw.
Arguments Return {A} a.
Arguments Throw {A}.

#[export] Instance outcome_ret : MRet outcome := @Return.

#[export] Instance outcome_bind : MBind outcome :=
  fun A B k m => match m with Return a => k a | Throw => Throw end.

(** [try { body } catch { handler }]. *)
Definition try_catch {A} (body : outcome A) (handler : A) : A :=
  match body with Return a => a | Throw => handler end.

(** [window.localStorage.getItem(STORAGE_KEY)]. *)
Definition getItem (localStorage : Storage) : outcome (option text) :=
  if readable localStorage then Return (stored localStorage) else Throw.

Definition JSON_parse (raw : text) : outcome json :=
  match raw with
  | Text v => Return v
  | EmptyText | Malformed => Throw
  end.

(** [JSON.stringify(state)]: a text that parses to the state's object, the
    properties holding [undefined] left out. *)
Definition JSON_stringify (state : RepositoryState) : text :=
  Text (JObj (state_object state)).

(** [!raw]. *)
Definition falsy (raw : option text) : bool :=
  match raw with
  | None | Some EmptyText => true
  | Some _ => false
  end.

Definition loadState (window : Window) : object :=
  match window with
  | None => state_object defaultState
  | Some localStorage =>
      try_catch
        (raw ← getItem localStorage;
         if falsy raw then mret (state_object defaultState)
         else
           match raw with
           | None => mret (state_object defaultState)
           | Some raw =>
               parsed ← JSON_parse raw;
               mret (object_spread (state_object defaultState) parsed)
           end)
        (state_object defaultState)
  end.

(** [window.localStorage.setItem(STORAGE_KEY, value)]. *)
Definition setItem (window : Window) (value : text) : outcome Window :=
  match window with
  | None => Throw
  | Some localStorage =>
      if writable localStorage
      then Return (Some {| stored := Some value;
                           readable := readable localStorage;
                           writable := true |})
      else Throw
  end.

Definition saveState (state : RepositoryState) (window : Window) : Window :=
  try_catch (setItem window (JSON_stringify state)) window.

(** ** Predicates used in the statements *)

(** Every inventory item has a quantity of at least zero. *)
Definition quantities_nonneg (s : RepositoryState) : Prop :=
  Forall (fun i => 0 <= item_quantity i) (inventory s).

(** An operation that hands the engine no negative stock level: an
    [addOrUpdateItem] whose partial has no [quantity] or one that is at
    least zero; every other operation qualifies. *)
Definition quantity_input_ok (op : Op) : Prop :=
  match op with
  | AddOrUpdateItem partial _ _ =>
      match p_quantity partial with
      | Some q => 0 <= q
      | None => True
      end
  | _ => True
  end.

(** [itemId] names no inventory item of [s]. *)
Definition unknown_item (s : RepositoryState) (itemId : string) : Prop :=
  Forall (fun item => item_id item ≠ Some itemId) (inventory s).

(** Some inventory item of [s] bears [itemId]. *)
Definition known_item (s : RepositoryState) (itemId : string) : bool :=
  existsb (fun i => same (item_id i) (Some itemId)) (inventory s).

(** The first inventory item bearing [itemId]. *)
Definition first_with_id (itemId : string) (items : list InventoryItem)
  : option InventoryItem :=
  List.find (fun i => same (item_id i) (Some itemId)) items.

(** The first inventory item bearing the barcode [B]. *)
Definition first_with_barcode (B : string) (items : list InventoryItem)
  : option InventoryItem :=
  List.find (fun i => truthy (item_barcode i) && same (item_barcode i) (Some B)) items.

(** A call of [recordInbound] that is not rejected: the quantity is positive
    and the item exists. *)
Definition inbound_accepted (s : RepositoryState) (options : InboundOptions) : bool :=
  (0 <? in_quantity options)%Z && known_item s (in_itemId options).

(** A call of [recordOutbound] that is not rejected: some cart line names an
    item that exists. *)
Definition outbound_accepted (s : RepositoryState) (options : OutboundOptions) : bool :=
  existsb (fun l => known_item s (cart_itemId l)) (out_items options).

(** The number of inventory items bearing the id [X], or the barcode [B]. *)
Definition count_id (X : string) (items : list InventoryItem) : nat :=
  length (List.filter (fun i => same (item_id i) (Some X)) items).


(** No two inventory items share an id. *)
Definition unique_ids (s : RepositoryState) : Prop :=
  NoDup (map item_id (inventory s)).


(** The terms of the two totals of the report, one per line item. *)
Definition line_weight (l : TransactionItem) : Q :=
  (inject_Z (line_quantity l) * line_weightPerUnitLbs l)%Q.

Definition line_value (l : TransactionItem) : Q :=
  (inject_Z (line_quantity l) * line_valuePerUnitUsd l)%Q.

(** An object names each of its properties once. *)
Definition well_formed (o : object) : Prop := NoDup (map fst o).

(** Reading back, at its type, the JSON of a value gives the value. *)
Class JsonLaw (A : Type) `{Json A} : Prop :=
  of_to_json : ∀ x : A, of_json (to_json x) = Some x.

(** ** Concrete inputs used by the examples *)

(** [{name}] with optional [id], [barcode] and [quantity]. *)
Definition item_partial (id : property string) (name : string)
    (barcode : property string) (quantity : option Z) : ItemPartial :=
  {| p_id := id; p_name := name; p_category := None; p_barcode := barcode;
     p_quantity := quantity; p_weightPerUnitLbs := None;
     p_valuePerUnitUsd := None; p_reorderThreshold := Absent;
     p_allergens := Absent; p_createdAt := None; p_updatedAt := None |}.

(** [{id: "a", name: "Beans", createdAt: "1999"}]. *)
Definition partial_with_createdAt : ItemPartial :=
  {| p_id := Given (Some "a"); p_name := "Beans"; p_category := None;
     p_barcode := Absent; p_quantity := None; p_weightPerUnitLbs := None;
     p_valuePerUnitUsd := None; p_reorderThreshold := Absent;
     p_allergens := Absent; p_createdAt := Some "1999"; p_updatedAt := None |}.

Definition inbound (itemId : string) (quantity : Z) : InboundOptions :=
  {| in_itemId := itemId; in_quantity := quantity; in_source := Some "Donation";
     in_donor := None; in_timestamp := None; in_location := None |}.

Definition line (itemId : string) (quantity : Z) : CartLine :=
  {| cart_itemId := itemId; cart_quantity := quantity |}.

(** A check-out for the client Jane / J1, not known by id. *)
Definition outbound_Jane (items : list CartLine) : OutboundOptions :=
  {| out_client := {| oc_id := None; oc_name := "Jane"; oc_identifier := "J1";
                      oc_contact := None |};
     out_items := items; out_timestamp := None; out_location := None |}.

(** The default state with 50 units of rice on the shelf. *)
Definition rice_50 : RepositoryState :=
  run [AddOrUpdateItem (item_partial Absent "Rice" Absent (Some 0)) "t0" "rice";
       RecordInbound (inbound "rice" 50) "t1" "tx1"]
      defaultState.

(** One item, id "a", barcode "123", created at "t0". *)
Definition beans_on_shelf : RepositoryState :=
  run [AddOrUpdateItem
         (item_partial (Given (Some "a")) "Beans" (Given (Some "123")) (Some 5))
         "t0" "unused"]
      defaultState.

(** A ledger of four transactions for the report examples. *)
Definition sample_tx (type : TransactionType) (timestamp : string) (quantity : Z)
  : Transaction :=
  {| tx_id := timestamp; tx_type := type; tx_timestamp := timestamp;
     tx_items := [ {| line_itemId := Some "rice"; line_name := "Rice";
                      line_quantity := quantity;
                      line_weightPerUnitLbs := 3 # 2;
                      line_valuePerUnitUsd := 2 |} ];
     tx_source := None; tx_donor := None; tx_clientId := None;
     tx_clientName := None; tx_location := None |}.

Definition sample_ledger : list Transaction :=
  [sample_tx OUT "2024-03-09T10:00:00.000Z" 4;
   sample_tx IN "2024-03-05T10:00:00.000Z" 50;
   sample_tx OUT "2024-03-01T23:59:59.000Z" 2;
   sample_tx OUT "2024-02-29T10:00:00.000Z" 1].

(** A store holding an object with the two vocabulary lists only. *)
Definition partial_store : Storage :=
  {| stored := Some (Text (JObj [("sources", JArr [JStr "Farm"]);
                                 ("donors", JArr [])]));
     readable := true;
     writable := true |}.

(** A store holding a text that is not JSON. *)
Definition corrupt_store : Storage :=
  {| stored := Some Malformed; readable := true; writable := true |}.

(** ** Derived views of the repository *)

(** [useClientWithHistory(clientId)]: the client record and the visits. *)
Definition useClientWithHistory (s : RepositoryState) (clientId : option string)
  : option ClientRecord * list Transaction :=
  if negb (truthy clientId) then (None, [])
  else
    (List.find (fun c => same (client_id c) clientId) (clients s),
     List.filter (fun t => is_OUT (tx_type t) && same (tx_clientId t) clientId)
                 (transactions s)).

Record InventorySummary := mkInventorySummary {
  distinctItems : nat;
  totalUnits : Z;
  totalWeightLbs : Q
}.

Definition useInventorySummary (s : RepositoryState) : InventorySummary :=
  {| distinctItems := length (inventory s);
     totalUnits := fold_left (fun sum i => sum + item_quantity i) (inventory s) 0;
     totalWeightLbs :=
       fold_left (fun sum i =>
                    (sum + inject_Z (item_quantity i) * item_weightPerUnitLbs i)%Q)
                 (inventory s) 0%Q |}.

Definition isLowStock (item : InventoryItem) : bool :=
  match item_reorderThreshold item with
  | None => false
  | Some threshold => (item_quantity item <=? threshold)%Z
  end.

(** The operations that may replace each part of the state. *)
Definition touches_inventory (op : Op) : bool :=
  match op with
  | AddOrUpdateItem _ _ _ | AdjustItemQuantity _ _ _
  | RecordInbound _ _ _ | RecordOutbound _ _ _ _ _ => true
  | _ => false
  end.

Definition touches_clients (op : Op) : bool :=
  match op with
  | UpsertClient _ _ _ | RecordOutbound _ _ _ _ _ => true
  | _ => false
  end.

Definition touches_settings (op : Op) : bool :=
  match op with UpdateSettings _ => true | _ => false end.

Definition touches_barcodeCache (op : Op) : bool :=
  match op with UpsertBarcodeCache _ _ _ => true | _ => false end.

Definition touches_sources (op : Op) : bool :=
  match op with AddSource _ => true | _ => false end.

Definition touches_donors (op : Op) : bool :=
  match op with AddDonor _ => true | _ => false end.

(** ** The cart of the check-out page *)

(** The updater of [addToCart(itemId, quantity)]; with an empty [itemId] no
    update is requested. *)
Definition addToCart (itemId : string) (quantity : Z) (prev : list CartLine)
  : list CartLine :=
  if negb (truthy (Some itemId)) then prev
  else
    match List.find (fun c => bool_decide (cart_itemId c = itemId)) prev with
    | Some _ =>
        map (fun c =>
               if bool_decide (cart_itemId c = itemId)
               then {| cart_itemId := cart_itemId c;
                       cart_quantity := cart_quantity c + quantity |}
               else c)
            prev
    | None => prev ++ [ {| cart_itemId := itemId; cart_quantity := quantity |} ]
    end.

(** The updater of [updateQuantity(itemId, quantity)] in [CartTable]. *)
Definition updateQuantity (itemId : string) (quantity : Z) (prev : list CartLine)
  : list CartLine :=
  if (quantity <=? 0)%Z
  then List.filter (fun c => negb (bool_decide (cart_itemId c = itemId))) prev
  else
    map (fun c =>
           if bool_decide (cart_itemId c = itemId)
           then {| cart_itemId := cart_itemId c; cart_quantity := quantity |}
           else c)
        prev.

Inductive CartEvent :=
| AddToCart (itemId : string) (quantity : Z)
| UpdateQuantity (itemId : string) (quantity : Z).

Definition cart_step (cart : list CartLine) (e : CartEvent) : list CartLine :=
  match e with
  | AddToCart itemId quantity => addToCart itemId quantity cart
  | UpdateQuantity itemId quantity => updateQuantity itemId quantity cart
  end.

Definition cart_run (events : list CartEvent) (cart : list CartLine) : list CartLine :=
  fold_left cart_step events cart.

(** No two lines of the cart name the same item, and none has an empty id. *)
Definition cart_ok (cart : list CartLine) : Prop :=
  NoDup (map cart_itemId cart)
  ∧ Forall (fun l => cart_itemId l ≠ EmptyString) cart.

(** An event that brings a positive quantity. *)
Definition positive_event (e : CartEvent) : Prop :=
  match e with
  | AddToCart _ quantity => 0 < quantity
  | UpdateQuantity _ _ => True
  end.

(** ** Submitting a check-out *)

Record CheckOutForm := mkCheckOutForm {
  co_clientId : string;
  co_clientName : string;
  co_clientIdentifier : string;
  co_clientContact : string;
  co_cart : list CartLine
}.

(** [a || b] on strings. *)
Definition or_else (a b : string) : string :=
  if truthy (Some a) then a else b.

(** The stock validation loop: some line asks for more than the first item
    bearing its id holds. *)
Definition insufficient_stock (items : list InventoryItem) (cart : list CartLine)
  : bool :=
  existsb (fun l =>
             match List.find (fun i => same (item_id i) (Some (cart_itemId l))) items with
             | None => false
             | Some item => (item_quantity item <? cart_quantity l)%Z
             end)
          cart.

Definition checkout_options (form : CheckOutForm) (location : option GeoLocation)
  : OutboundOptions :=
  let clientNameFinal := trim (co_clientName form) in
  let identifierFinal :=
    or_else (or_else (trim (co_clientIdentifier form)) clientNameFinal) "Unknown" in
  {| out_client :=
       {| oc_id := if truthy (Some (co_clientId form))
                      && negb (bool_decide (co_clientId form = "new"))
                   then Some (co_clientId form) else None;
          oc_name := clientNameFinal;
          oc_identifier := identifierFinal;
          oc_contact := if truthy (Some (trim (co_clientContact form)))
                        then Some (trim (co_clientContact form)) else None |};
     out_items := co_cart form;
     out_timestamp := None;
     out_location := location |}.

(** Updates that leave the inventory and the ledger as they find them. *)
Definition keeps_stock (updates : list updater) : Prop :=
  ∀ st, inventory (flush updates st) = inventory st
        ∧ transactions (flush updates st) = transactions st.

(** [handleSubmit] of the check-out page.  [s] is the state the page shows
    when the form is submitted: the cart is validated against its inventory
    (the three early returns), and the [recordOutbound] called is the one of
    that render.  The call is made once [getCurrentLocation()] has been
    awaited; [during] are the updates that other handlers have requested by
    then, so the updates of [recordOutbound] are applied to the state those
    leave. *)
Definition checkout_handleSubmit (s : RepositoryState) (during : list updater)
    (form : CheckOutForm) (location : option GeoLocation)
    (now now_client uuid_client uuid_tx : string)
  : RepositoryState :=
  match co_cart form with
  | [] => s
  | _ :: _ =>
      if negb (truthy (Some (trim (co_clientName form)))) then s
      else if insufficient_stock (inventory s) (co_cart form) then s
      else flush (queued s (RecordOutbound (checkout_options form location)
                                           now now_client uuid_client uuid_tx))
                 (flush during s)
  end.

(** ** Submitting a check-in *)

Inductive CheckInMode := ModeExisting | ModeNew.

Record NewItemForm := mkNewItemForm {
  ni_name : string;
  ni_category : string;
  ni_barcode : string;
  ni_weightPerUnitLbs : Q;
  ni_valuePerUnitUsd : Q
}.

Record CheckInForm := mkCheckInForm {
  ci_mode : CheckInMode;
  ci_selectedId : string;
  ci_quantity : Z;
  ci_source : string;
  ci_newItem : NewItemForm
}.

(** The partial that the check-in page hands to [addOrUpdateItem]. *)
Definition checkin_partial (newItem : NewItemForm) : ItemPartial :=
  {| p_id := Absent;
     p_name := trim (ni_name newItem);
     p_category := Some (or_else (trim (ni_category newItem)) "Uncategorized");
     p_barcode := Given (trimmed_barcode (Some (ni_barcode newItem)));
     p_quantity := Some 0;
     p_weightPerUnitLbs := Some (ni_weightPerUnitLbs newItem);
     p_valuePerUnitUsd := Some (ni_valuePerUnitUsd newItem);
     p_reorderThreshold := Absent;
     p_allergens := Absent;
     p_createdAt := None;
     p_updatedAt := None |}.

Definition checkin_options (itemId : string) (form : CheckInForm)
    (location : option GeoLocation) : InboundOptions :=
  {| in_itemId := itemId;
     in_quantity := ci_quantity form;
     in_source := if truthy (Some (trim (ci_source form)))
                  then Some (trim (ci_source form)) else None;
     in_donor := None;
     in_timestamp := None;
     in_location := location |}.

(** [handleSubmit] of the check-in page, called on the state [s] the page
    shows.  The update of [addOrUpdateItem] is requested at once;
    [recordInbound] is called once [getCurrentLocation()] has been awaited,
    and [during] are the updates that other handlers have requested by
    then. *)
Definition checkin_handleSubmit (s : RepositoryState) (during : list updater)
    (form : CheckInForm) (location : option GeoLocation)
    (now_item uuid_item now uuid_tx : string)
  : RepositoryState :=
  if (ci_quantity form =? 0)%Z || (ci_quantity form <=? 0)%Z then s
  else
    match ci_mode form with
    | ModeNew =>
        if negb (truthy (Some (trim (ni_name (ci_newItem form))))) then s
        else
          let partial := checkin_partial (ci_newItem form) in
          let created := fst (addOrUpdateItem s partial now_item uuid_item) in
          let s1 := step s (AddOrUpdateItem partial now_item uuid_item) in
          match item_id created with
          | Some itemId =>
              if truthy (Some itemId)
              then flush (recordInbound (checkin_options itemId form location)
                                        now uuid_tx)
                         (flush during s1)
              else s1
          | None => s1
          end
    | ModeExisting =>
        if truthy (Some (ci_selectedId form))
        then flush (recordInbound (checkin_options (ci_selectedId form) form location)
                                  now uuid_tx)
                   (flush during s)
        else s
    end.

(** A check-in of [quantity] units of a new item named "Black beans" with
    the barcode " 123 ". *)
Definition checkin_beans (quantity : Z) : CheckInForm :=
  {| ci_mode := ModeNew; ci_selectedId := EmptyString; ci_quantity := quantity;
     ci_source := "Donation";
     ci_newItem := {| ni_name := "Black beans"; ni_category := EmptyString;
                      ni_barcode := " 123 "; ni_weightPerUnitLbs := 1;
                      ni_valuePerUnitUsd := 2 |} |}.

(** One item without id, barcode "123", holding 7 units: what an update
    carrying [id: undefined] leaves of an item. *)
Definition beans_without_id : RepositoryState :=
  run [AddOrUpdateItem
         (item_partial (Given (Some "a")) "Beans" (Given (Some "123")) (Some 7))
         "t0" "unused";
       AddOrUpdateItem (item_partial (Given None) "Beans" (Given (Some "123")) None)
         "t1" "unused"]
      defaultState.

(** A name made of two no-break spaces. *)
Definition no_break_spaces : string :=
  String (ascii_of_nat 160) (String (ascii_of_nat 160) EmptyString).

(** A string that is empty or starts with a character [trim] keeps. *)
Definition starts_clean (s : string) : Prop :=
  match s with
  | EmptyString => True
  | String c _ => is_space c = false
  end.

(** ** Aggregations and exports of the reports page *)

(** A JavaScript [Map]: the entries in insertion order, each key once. *)
Definition JsMap (K V : Type) : Type := list (K * V).

Fixpoint Map_get {K V} `{EqDecision K} (k : K) (m : JsMap K V) : option V :=
  match m with
  | [] => None
  | (k', v) :: r => if bool_decide (k = k') then Some v else Map_get k r
  end.

(** [map.set(k, v)]: an existing key keeps its place. *)
Fixpoint Map_set {K V} `{EqDecision K} (k : K) (v : V) (m : JsMap K V) : JsMap K V :=
  match m with
  | [] => [(k, v)]
  | (k', v') :: r =>
      if bool_decide (k = k') then (k, v) :: r else (k', v') :: Map_set k v r
  end.

(** [Array.from(map.values())]. *)
Definition Map_values {K V} (m : JsMap K V) : list V := map snd m.

Record ItemRow := mkItemRow {
  row_name : string;
  row_quantity : Z
}.

(** The body of the inner loop of [byItem]. *)
Definition byItem_add (m : JsMap (option string) ItemRow) (item : TransactionItem)
  : JsMap (option string) ItemRow :=
  let current :=
    match Map_get (line_itemId item) m with
    | Some row => row
    | None => {| row_name := line_name item; row_quantity := 0 |}
    end in
  Map_set (line_itemId item)
          {| row_name := row_name current;
             row_quantity := row_quantity current + line_quantity item |}
          m.

(** [byItem]: one row [(id, {name, quantity})] per item id, in the order in
    which the ids first occur. *)
Definition byItem (selected : list Transaction) : JsMap (option string) ItemRow :=
  fold_left (fun m tx => fold_left byItem_add (tx_items tx) m) selected [].







(** The lines of the selected transactions that bear the item id [id]. *)
Definition lines_of (id : option string) (selected : list Transaction)
  : list TransactionItem :=
  List.filter (fun l => same (line_itemId l) id) (line_items selected).

Definition sum_Z (terms : list Z) : Z := fold_right Z.add 0 terms.

(** *** CSV *)






(** *** JSON export and import *)

(** [JSON.stringify(repo, null, 2)]: the functions of the context value are
    left out, the seven parts of the state remain. *)
Definition exportJson (s : RepositoryState) : text :=
  Text (JObj (state_object s)).

Inductive ImportResult := Ignored | Reloaded | Alerted.

(** [handleImport]: the chosen file, if any, is parsed, written back to the
    store and the page reloaded; any failure ends in an alert. *)
Definition handleImport (file : option text) (window : Window)
  : Window * ImportResult :=
  match file with
  | None => (window, Ignored)
  | Some content =>
      try_catch
        (parsed ← JSON_parse content;
         window' ← setItem window (Text parsed);
         mret (window', Reloaded))
        (window, Alerted)
  end.

(** ** Server storage (MemStorage) and its routes *)

Module Server.

(** [new Date()], in milliseconds. *)
Definition Date : Type := Z.

Record User := mkUser {
  u_id : string;
  u_username : string;
  u_password : string;
  u_role : string;
  u_createdAt : Date;
  u_updatedAt : Date
}.

Record InsertUser := mkInsertUser {
  iu_username : string;
  iu_password : string;
  iu_role : option string
}.

(** A row of [inventory_items]; numeric columns are decimal strings. *)
Record InventoryItem := mkInventoryItem {
  i_id : string;
  i_name : string;
  i_category : string;
  i_barcode : option string;
  i_quantity : Z;
  i_weightPerUnitLbs : string;
  i_valuePerUnitUsd : string;
  i_reorderThreshold : option Z;
  i_allergens : list string;
  i_expirationDate : option string;
  i_createdAt : Date;
  i_updatedAt : Date
}.

(** [InsertInventoryItem]: [None] is an absent, [undefined] or [null]
    property, which [??] treats alike. *)
Record InsertInventoryItem := mkInsertInventoryItem {
  ii_name : string;
  ii_category : option string;
  ii_barcode : option string;
  ii_quantity : option Z;
  ii_weightPerUnitLbs : option string;
  ii_valuePerUnitUsd : option string;
  ii_reorderThreshold : option Z;
  ii_allergens : option (list string);
  ii_expirationDate : option string
}.

(** [Partial<InsertInventoryItem>] as the spread reads it: a property is
    absent or present; a present nullable one may hold [null]
    ([Given None]). *)
Record InventoryItemPatch := mkInventoryItemPatch {
  ip_name : option string;
  ip_category : option string;
  ip_barcode : property string;
  ip_quantity : option Z;
  ip_weightPerUnitLbs : option string;
  ip_valuePerUnitUsd : option string;
  ip_reorderThreshold : property Z;
  ip_allergens : option (list string);
  ip_expirationDate : property string
}.

Record Client := mkClient {
  c_id : string;
  c_name : string;
  c_identifier : string;
  c_contact : option string;
  c_allergies : list string;
  c_notes : option string;
  c_createdAt : Date;
  c_updatedAt : Date
}.

Record InsertClient := mkInsertClient {
  ic_name : string;
  ic_identifier : string;
  ic_contact : option string;
  ic_allergies : option (list string);
  ic_notes : option string
}.

Record ClientPatch := mkClientPatch {
  cp_name : option string;
  cp_identifier : option string;
  cp_contact : property string;
  cp_allergies : option (list string);
  cp_notes : property string
}.

Record Transaction := mkTransaction {
  t_id : string;
  t_type : TransactionType;
  t_timestamp : Date;
  t_source : option string;
  t_donor : option string;
  t_clientId : option string;
  t_clientName : option string;
  t_latitude : option Q;
  t_longitude : option Q;
  t_accuracy : option Q;
  t_createdAt : Date
}.

Record InsertTransaction := mkInsertTransaction {
  it_type : TransactionType;
  it_timestamp : option Date;
  it_source : option string;
  it_donor : option string;
  it_clientId : option string;
  it_clientName : option string;
  it_latitude : option Q;
  it_longitude : option Q;
  it_accuracy : option Q
}.

Record TransactionItem := mkTransactionItem {
  ti_id : string;
  ti_transactionId : string;
  ti_inventoryItemId : string;
  ti_name : string;
  ti_quantity : Z;
  ti_weightPerUnitLbs : string;
  ti_valuePerUnitUsd : string
}.

Record InsertTransactionItem := mkInsertTransactionItem {
  iti_transactionId : string;
  iti_inventoryItemId : string;
  iti_name : string;
  iti_quantity : Z;
  iti_weightPerUnitLbs : string;
  iti_valuePerUnitUsd : string
}.

Record MemStorage := mkMemStorage {
  users : JsMap string User;
  inventoryItemsMap : JsMap string InventoryItem;
  clientsMap : JsMap string Client;
  transactionsMap : JsMap string Transaction;
  transactionItemsMap : JsMap string TransactionItem
}.

(** [new MemStorage()]. *)
Definition empty : MemStorage :=
  {| users := []; inventoryItemsMap := []; clientsMap := [];
     transactionsMap := []; transactionItemsMap := [] |}.

Definition with_users (st : MemStorage) (m : JsMap string User) :=
  {| users := m; inventoryItemsMap := inventoryItemsMap st;
     clientsMap := clientsMap st; transactionsMap := transactionsMap st;
     transactionItemsMap := transactionItemsMap st |}.

Definition with_inventoryItemsMap (st : MemStorage) (m : JsMap string InventoryItem) :=
  {| users := users st; inventoryItemsMap := m;
     clientsMap := clientsMap st; transactionsMap := transactionsMap st;
     transactionItemsMap := transactionItemsMap st |}.

Definition with_clientsMap (st : MemStorage) (m : JsMap string Client) :=
  {| users := users st; inventoryItemsMap := inventoryItemsMap st;
     clientsMap := m; transactionsMap := transactionsMap st;
     transactionItemsMap := transactionItemsMap st |}.

Definition with_transactionsMap (st : MemStorage) (m : JsMap string Transaction) :=
  {| users := users st; inventoryItemsMap := inventoryItemsMap st;
     clientsMap := clientsMap st; transactionsMap := m;
     transactionItemsMap := transactionItemsMap st |}.

Definition with_transactionItemsMap (st : MemStorage)
    (m : JsMap string TransactionItem) :=
  {| users := users st; inventoryItemsMap := inventoryItemsMap st;
     clientsMap := clientsMap st; transactionsMap := transactionsMap st;
     transactionItemsMap := m |}.

(** *** Users *)

Definition getUser (id : string) (st : MemStorage) : option User :=
  Map_get id (users st).

Definition getUserByUsername (username : string) (st : MemStorage) : option User :=
  List.find (fun user => bool_decide (u_username user = username))
            (Map_values (users st)).

Definition createUser (insertUser : InsertUser) (now : Date) (uuid : string)
    (st : MemStorage) : User * MemStorage :=
  let user :=
    {| u_id := uuid;
       u_username := iu_username insertUser;
       u_password := iu_password insertUser;
       u_role := nullish (iu_role insertUser) "volunteer";
       u_createdAt := now;
       u_updatedAt := now |} in
  (user, with_users st (Map_set (u_id user) user (users st))).

(** *** Inventory *)

Definition getInventoryItems (st : MemStorage) : list InventoryItem :=
  Map_values (inventoryItemsMap st).

Definition getInventoryItem (id : string) (st : MemStorage) : option InventoryItem :=
  Map_get id (inventoryItemsMap st).

Definition createInventoryItem (insert : InsertInventoryItem) (now : Date)
    (uuid : string) (st : MemStorage) : InventoryItem * MemStorage :=
  let item :=
    {| i_id := uuid;
       i_name := ii_name insert;
       i_category := nullish (ii_category insert) "Uncategorized";
       i_barcode := ii_barcode insert;
       i_quantity := nullish (ii_quantity insert) 0;
       i_weightPerUnitLbs := nullish (ii_weightPerUnitLbs insert) "0";
       i_valuePerUnitUsd := nullish (ii_valuePerUnitUsd insert) "0";
       i_reorderThreshold := ii_reorderThreshold insert;
       i_allergens := nullish (ii_allergens insert) [];
       i_expirationDate := ii_expirationDate insert;
       i_createdAt := now;
       i_updatedAt := now |} in
  (item, with_inventoryItemsMap st (Map_set (i_id item) item (inventoryItemsMap st))).

(** [{...existing, ...partial, id: existing.id, createdAt: existing.createdAt,
     updatedAt: new Date()}]. *)
Definition patched_item (existing : InventoryItem) (partial : InventoryItemPatch)
    (now : Date) : InventoryItem :=
  {| i_id := i_id existing;
     i_name := spread_def (i_name existing) (ip_name partial);
     i_category := spread_def (i_category existing) (ip_category partial);
     i_barcode := spread (i_barcode existing) (ip_barcode partial);
     i_quantity := spread_def (i_quantity existing) (ip_quantity partial);
     i_weightPerUnitLbs :=
       spread_def (i_weightPerUnitLbs existing) (ip_weightPerUnitLbs partial);
     i_valuePerUnitUsd :=
       spread_def (i_valuePerUnitUsd existing) (ip_valuePerUnitUsd partial);
     i_reorderThreshold :=
       spread (i_reorderThreshold existing) (ip_reorderThreshold partial);
     i_allergens := spread_def (i_allergens existing) (ip_allergens partial);
     i_expirationDate :=
       spread (i_expirationDate existing) (ip_expirationDate partial);
     i_createdAt := i_createdAt existing;
     i_updatedAt := now |}.

Definition updateInventoryItem (id : string) (partial : InventoryItemPatch)
    (now : Date) (st : MemStorage) : option InventoryItem * MemStorage :=
  match Map_get id (inventoryItemsMap st) with
  | None => (None, st)
  | Some existing =>
      let updated := patched_item existing partial now in
      (Some updated,
       with_inventoryItemsMap st (Map_set id updated (inventoryItemsMap st)))
  end.

(** *** Clients *)

Definition getClients (st : MemStorage) : list Client := Map_values (clientsMap st).

Definition getClient (id : string) (st : MemStorage) : option Client :=
  Map_get id (clientsMap st).

Definition getClientByIdentifier (identifier : string) (st : MemStorage)
  : option Client :=
  List.find (fun c => bool_decide (c_identifier c = identifier))
            (Map_values (clientsMap st)).

Definition createClient (insert : InsertClient) (now : Date) (uuid : string)
    (st : MemStorage) : Client * MemStorage :=
  let client :=
    {| c_id := uuid;
       c_name := ic_name insert;
       c_identifier := ic_identifier insert;
       c_contact := ic_contact insert;
       c_allergies := nullish (ic_allergies insert) [];
       c_notes := ic_notes insert;
       c_createdAt := now;
       c_updatedAt := now |} in
  (client, with_clientsMap st (Map_set (c_id client) client (clientsMap st))).

Definition patched_client (existing : Client) (partial : ClientPatch) (now : Date)
  : Client :=
  {| c_id := c_id existing;
     c_name := spread_def (c_name existing) (cp_name partial);
     c_identifier := spread_def (c_identifier existing) (cp_identifier partial);
     c_contact := spread (c_contact existing) (cp_contact partial);
     c_allergies := spread_def (c_allergies existing) (cp_allergies partial);
     c_notes := spread (c_notes existing) (cp_notes partial);
     c_createdAt := c_createdAt existing;
     c_updatedAt := now |}.

Definition updateClient (id : string) (partial : ClientPatch) (now : Date)
    (st : MemStorage) : option Client * MemStorage :=
  match Map_get id (clientsMap st) with
  | None => (None, st)
  | Some existing =>
      let updated := patched_client existing partial now in
      (Some updated, with_clientsMap st (Map_set id updated (clientsMap st)))
  end.

(** *** Transactions and their items *)

Definition getTransactions (st : MemStorage) : list Transaction :=
  Map_values (transactionsMap st).

Definition createTransaction (insert : InsertTransaction) (now : Date)
    (uuid : string) (st : MemStorage) : Transaction * MemStorage :=
  let tx :=
    {| t_id := uuid;
       t_type := it_type insert;
       t_timestamp := nullish (it_timestamp insert) now;
       t_source := it_source insert;
       t_donor := it_donor insert;
       t_clientId := it_clientId insert;
       t_clientName := it_clientName insert;
       t_latitude := it_latitude insert;
       t_longitude := it_longitude insert;
       t_accuracy := it_accuracy insert;
       t_createdAt := now |} in
  (tx, with_transactionsMap st (Map_set (t_id tx) tx (transactionsMap st))).

Definition getTransactionItems (transactionId : string) (st : MemStorage)
  : list TransactionItem :=
  List.filter (fun ti => bool_decide (ti_transactionId ti = transactionId))
              (Map_values (transactionItemsMap st)).

Definition createTransactionItem (insert : InsertTransactionItem) (uuid : string)
    (st : MemStorage) : TransactionItem * MemStorage :=
  let item :=
    {| ti_id := uuid;
       ti_transactionId := iti_transactionId insert;
       ti_inventoryItemId := iti_inventoryItemId insert;
       ti_name := iti_name insert;
       ti_quantity := iti_quantity insert;
       ti_weightPerUnitLbs := iti_weightPerUnitLbs insert;
       ti_valuePerUnitUsd := iti_valuePerUnitUsd insert |} in
  (item,
   with_transactionItemsMap st (Map_set (ti_id item) item (transactionItemsMap st))).

(** *** Sequences of storage calls *)

Inductive Call :=
| CreateUser (insertUser : InsertUser) (now : Date) (uuid : string)
| CreateInventoryItem (insert : InsertInventoryItem) (now : Date) (uuid : string)
| UpdateInventoryItem (id : string) (partial : InventoryItemPatch) (now : Date)
| CreateClient (insert : InsertClient) (now : Date) (uuid : string)
| UpdateClient (id : string) (partial : ClientPatch) (now : Date)
| CreateTransaction (insert : InsertTransaction) (now : Date) (uuid : string)
| CreateTransactionItem (insert : InsertTransactionItem) (uuid : string).

Definition call (st : MemStorage) (c : Call) : MemStorage :=
  match c with
  | CreateUser insertUser now uuid => snd (createUser insertUser now uuid st)
  | CreateInventoryItem insert now uuid => snd (createInventoryItem insert now uuid st)
  | UpdateInventoryItem id partial now => snd (updateInventoryItem id partial now st)
  | CreateClient insert now uuid => snd (createClient insert now uuid st)
  | UpdateClient id partial now => snd (updateClient id partial now st)
  | CreateTransaction insert now uuid => snd (createTransaction insert now uuid st)
  | CreateTransactionItem insert uuid => snd (createTransactionItem insert uuid st)
  end.

Definition calls (cs : list Call) (st : MemStorage) : MemStorage :=
  fold_left call cs st.

(** Every entry of every map is filed under the id of its record. *)
Definition keyed_by_id (st : MemStorage) : Prop :=
  Forall (fun kv => fst kv = u_id (snd kv)) (users st)
  ∧ Forall (fun kv => fst kv = i_id (snd kv)) (inventoryItemsMap st)
  ∧ Forall (fun kv => fst kv = c_id (snd kv)) (clientsMap st)
  ∧ Forall (fun kv => fst kv = t_id (snd kv)) (transactionsMap st)
  ∧ Forall (fun kv => fst kv = ti_id (snd kv)) (transactionItemsMap st).

(** No map files two entries under one key. *)
Definition keys_distinct (st : MemStorage) : Prop :=
  NoDup (map fst (users st))
  ∧ NoDup (map fst (inventoryItemsMap st))
  ∧ NoDup (map fst (clientsMap st))
  ∧ NoDup (map fst (transactionsMap st))
  ∧ NoDup (map fst (transactionItemsMap st)).

(** *** Routes *)

Section Routes.

(** The request bodies and the two validators ([safeParse] of the insert
    schemas); the item validator is given the raw item and the id of the
    transaction it is filed under. *)
Context {RawTransaction RawItem RawPatch : Type}.
Variable parseTransaction : RawTransaction → option InsertTransaction.
Variable parseItem : RawItem → string → option InsertTransactionItem.
Variable parsePatch : RawPatch → option InventoryItemPatch.

Inductive Response (A : Type) : Type :=
| Status400 (message : string)
| Status404 (message : string)
| Status200 (body : A)
| Status201 (body : A).

(** [PATCH /api/inventory/:id]. *)
Definition patchInventory (id : string) (body : RawPatch) (now : Date)
    (st : MemStorage) : Response InventoryItem * MemStorage :=
  match parsePatch body with
  | None => (Status400 _ "Invalid data", st)
  | Some data =>
      match updateInventoryItem id data now st with
      | (None, st') => (Status404 _ "Not found", st')
      | (Some updated, st') => (Status200 _ updated, st')
      end
  end.

(** The loop over [rawItems]: [None] when an item is rejected. *)
Fixpoint postItems (rawItems : list RawItem) (transactionId : string)
    (uuid : nat → string) (n : nat) (createdItems : list TransactionItem)
    (st : MemStorage) : option (list TransactionItem) * MemStorage :=
  match rawItems with
  | [] => (Some createdItems, st)
  | rawItem :: rest =>
      match parseItem rawItem transactionId with
      | None => (None, st)
      | Some data =>
          let '(created, st') := createTransactionItem data (uuid n) st in
          postItems rest transactionId uuid (S n) (createdItems ++ [created]) st'
      end
  end.

(** [POST /api/transactions]; [rawItems] is [None] when the [items] of the
    body is not an array; the n-th item created draws the id [uuid n]. *)
Definition postTransaction (txBody : RawTransaction)
    (rawItems : option (list RawItem)) (now : Date) (uuid_tx : string)
    (uuid : nat → string) (st : MemStorage)
  : Response (Transaction * list TransactionItem) * MemStorage :=
  match parseTransaction txBody with
  | None => (Status400 _ "Invalid data", st)
  | Some data =>
      let '(transaction, st1) := createTransaction data now uuid_tx st in
      match rawItems with
      | None => (Status201 _ (transaction, []), st1)
      | Some rawItems =>
          match postItems rawItems (t_id transaction) uuid 0 [] st1 with
          | (None, st2) => (Status400 _ "Invalid item data", st2)
          | (Some createdItems, st2) =>
              (Status201 _ (transaction, createdItems), st2)
          end
      end
  end.

End Routes.

(** Validators for the examples: a transaction body is taken as it is; a
    raw item is accepted when it carries an item id, a name and a
    quantity, and is filed under the id of the transaction. *)
Definition sample_parseTransaction (txBody : InsertTransaction)
  : option InsertTransaction := Some txBody.

Definition sample_parseItem (rawItem : option (string * string * Z))
    (transactionId : string) : option InsertTransactionItem :=
  match rawItem with
  | Some (inventoryItemId, name, quantity) =>
      Some {| iti_transactionId := transactionId;
              iti_inventoryItemId := inventoryItemId;
              iti_name := name;
              iti_quantity := quantity;
              iti_weightPerUnitLbs := "0";
              iti_valuePerUnitUsd := "0" |}
  | None => None
  end.

Definition sample_uuid (n : nat) : string :=
  match n with
  | O => "line-0"
  | S O => "line-1"
  | _ => "line-n"
  end.

Definition sample_txBody : InsertTransaction :=
  {| it_type := OUT; it_timestamp := None; it_source := None; it_donor := None;
     it_clientId := None; it_clientName := Some "Jane"; it_latitude := None;
     it_longitude := None; it_accuracy := None |}.

End Server.

(** * Properties *)

(** ** Frame lemmas shared by the statements below *)

Lemma upsertClient_inventory state partial now uuid prev :
  inventory (snd (upsertClient state partial now uuid) prev) = inventory prev.
Proof. unfold upsertClient. destruct (existing_client state partial); reflexivity. Qed.

Lemma upsertClient_transactions state partial now uuid prev :
  transactions (snd (upsertClient state partial now uuid) prev) = transactions prev.
Proof. unfold upsertClient. destruct (existing_client state partial); reflexivity. Qed.

Lemma recordOutbound_cases state options now now_client uuid_client uuid_tx :
  recordOutbound state options now now_client uuid_client uuid_tx = []
  ∨ ∃ client,
      client = fst (upsertClient state (outbound_partial (out_client options))
                                 now_client uuid_client)
      ∧ recordOutbound state options now now_client uuid_client uuid_tx
        = [outbound_updater client options (nullish (out_timestamp options) now) uuid_tx;
           snd (upsertClient state (outbound_partial (out_client options))
                             now_client uuid_client)].
Proof.
  unfold recordOutbound. destruct (out_items options); [by left|right].
  destruct (upsertClient _ _ _ _) as [cl u]. by exists cl.
Qed.

(** ** Quantities never go negative *)

Lemma find_in {A} (f : A → bool) l x : List.find f l = Some x → In x l ∧ f x = true.
Proof. apply List.find_some. Qed.

Lemma Forall_map_cond {A} (P : A → Prop) (c : A → bool) (g : A → A) l :
  Forall P l → (∀ x, P x → c x = true → P (g x)) →
  Forall P (map (fun x => if c x then g x else x) l).
Proof.
  intros Hl Hg. apply List.Forall_map. eapply Forall_impl; [exact Hl|].
  intros x Hx. simpl. destruct (c x) eqn:E; auto.
Qed.

Lemma existing_item_in state partial e :
  existing_item state partial = Some e → In e (inventory state).
Proof.
  unfold existing_item.
  destruct (truthy (read (p_id partial)));
    [destruct (List.find _ (inventory state)) eqn:Hid|].
  - intros [= <-]. by apply find_in in Hid as [? _].
  - destruct (truthy (read (p_barcode partial))); [|done].
    intros Hb. by apply find_in in Hb as [? _].
  - destruct (truthy (read (p_barcode partial))); [|done].
    intros Hb. by apply find_in in Hb as [? _].
Qed.

Lemma addOrUpdateItem_nonneg state partial now uuid :
  quantities_nonneg state →
  quantity_input_ok (AddOrUpdateItem partial now uuid) →
  quantities_nonneg (snd (addOrUpdateItem state partial now uuid) state).
Proof.
  unfold quantities_nonneg, addOrUpdateItem. simpl. intros Hs Hp.
  destruct (existing_item state partial) as [e|] eqn:He; simpl.
  - apply existing_item_in in He as Hin.
    apply Forall_map_cond; [done|]. intros _ _ _. simpl.
    destruct (p_quantity partial); simpl; [done|].
    rewrite List.Forall_forall in Hs. by apply Hs.
  - apply Forall_app. split; [done|]. constructor; [|constructor]. simpl.
    destruct (p_quantity partial); simpl; [done|lia].
Qed.

Lemma outbound_updater_nonneg client options timestamp uuid prev :
  quantities_nonneg prev →
  quantities_nonneg (outbound_updater client options timestamp uuid prev).
Proof.
  unfold quantities_nonneg, outbound_updater. intros Hprev.
  destruct (outbound_txItems prev (out_items options)); [done|]. simpl.
  unfold outbound_inventory. apply List.Forall_map.
  eapply Forall_impl; [exact Hprev|].
  intros item Hitem. simpl. destruct (List.find _ _); simpl; [lia|done].
Qed.

Lemma inbound_updater_nonneg options timestamp uuid prev :
  0 < in_quantity options →
  quantities_nonneg prev →
  quantities_nonneg (inbound_updater options timestamp uuid prev).
Proof.
  unfold quantities_nonneg, inbound_updater. intros Hq Hprev.
  destruct (List.find _ _); [|done]. simpl.
  apply Forall_map_cond; [done|]. intros x Hx _. simpl. lia.
Qed.

Lemma step_nonneg s op :
  quantities_nonneg s → quantity_input_ok op → quantities_nonneg (step s op).
Proof.
  intros Hs Hop. destruct op; unfold step; simpl.
  - by apply addOrUpdateItem_nonneg.
  - unfold adjustItemQuantity, quantities_nonneg. simpl.
    apply List.Forall_map. eapply Forall_impl; [exact Hs|].
    intros i Hi. simpl. destruct (negb _); simpl; [done|lia].
  - unfold recordInbound.
    destruct ((in_quantity options =? 0)%Z || (in_quantity options <=? 0)%Z) eqn:Hrej;
      [done|].
    simpl. apply inbound_updater_nonneg; [|done].
    apply orb_false_elim in Hrej as [_ Hle]. lia.
  - destruct (recordOutbound_cases s options now now_client uuid_client uuid_tx)
      as [-> | (client & _ & ->)]; [done|].
    simpl. unfold quantities_nonneg. rewrite upsertClient_inventory.
    by apply outbound_updater_nonneg.
  - unfold quantities_nonneg. by rewrite upsertClient_inventory.
  - done.
  - done.
  - unfold addSource. by destruct (bool_decide _).
  - unfold addDonor. by destruct (bool_decide _).
Qed.

Lemma run_nonneg ops s :
  quantities_nonneg s → Forall quantity_input_ok ops → quantities_nonneg (run ops s).
Proof.
  revert s. induction ops as [|op ops IH]; intros s Hs Hops; [done|].
  inversion_clear Hops. simpl. apply IH; [by apply step_nonneg|done].
Qed.

(** C1, as stated, fails: from the default state, one [addOrUpdateItem] whose
    partial carries [quantity: -5] leaves an item with a negative quantity. *)
Lemma quantity_negative_after_add :
  ¬ quantities_nonneg
      (run [AddOrUpdateItem (item_partial Absent "Rice" Absent (Some (-5))) "t0" "rice"]
           defaultState).
Proof.
  unfold quantities_nonneg. intros H. apply Forall_inv in H. simpl in H. lia.
Qed.

(** C1, amended: for every sequence of engine operations starting from the
    default state in which each [addOrUpdateItem] carries no quantity or a
    quantity of at least zero, every inventory item of the resulting state
    has a quantity of at least zero. *)
Theorem quantity_never_negative (ops : list Op) :
  Forall quantity_input_ok ops → quantities_nonneg (run ops defaultState).
Proof. apply run_nonneg. constructor. Qed.

Lemma quantity_never_negative_witness :
  let ops :=
    [AddOrUpdateItem (item_partial Absent "Rice" Absent (Some 0)) "t0" "rice";
     RecordInbound (inbound "rice" 50) "t1" "tx1";
     AdjustItemQuantity "rice" (-100) "t2";
     RecordInbound (inbound "rice" 7) "t3" "tx2";
     RecordOutbound (outbound_Jane [ line "rice" 20 ])
                    "t4" "t4" "jane" "tx3"] in
  Forall quantity_input_ok ops
  ∧ map item_quantity (inventory (run ops defaultState)) = [0]
  ∧ quantities_nonneg (run ops defaultState).
Proof.
  intros ops.
  assert (Forall quantity_input_ok ops) as Hops.
  { unfold ops. repeat (constructor; [simpl; first [exact I | lia]|]). constructor. }
  split; [exact Hops|]. split; [reflexivity|].
  exact (quantity_never_negative ops Hops).
Defined.

(** ** A check-out none of whose lines is valid *)

Lemma find_none_unknown s itemId :
  unknown_item s itemId →
  List.find (fun item => same (item_id item) (Some itemId)) (inventory s) = None.
Proof.
  unfold unknown_item. induction (inventory s) as [|x l IH]; [done|].
  intros H. inversion_clear H. simpl. unfold same at 1.
  rewrite bool_decide_eq_false_2; auto.
Qed.

Lemma outbound_txItems_unknown s items :
  Forall (fun l => unknown_item s (cart_itemId l)) items →
  outbound_txItems s items = [].
Proof.
  unfold outbound_txItems. induction 1 as [|l items Hl _ IH]; [done|].
  simpl. unfold outbound_line at 1. by rewrite find_none_unknown.
Qed.

(** With no valid line the updater of [recordOutbound] returns [prev], and
    what remains is the client update requested on the way: the whole call
    acts as [upsertClient] alone. *)
Lemma outbound_all_unknown s options now now_client uuid_client uuid_tx :
  out_items options ≠ [] →
  Forall (fun l => unknown_item s (cart_itemId l)) (out_items options) →
  step s (RecordOutbound options now now_client uuid_client uuid_tx)
  = step s (UpsertClient (outbound_partial (out_client options)) now_client uuid_client).
Proof.
  intros Hne Hunknown. unfold step. simpl. unfold recordOutbound.
  destruct (out_items options) as [|l items] eqn:Hitems; [done|].
  destruct (upsertClient _ _ _ _) as [client u]. simpl.
  unfold outbound_updater. rewrite Hitems.
  by rewrite (outbound_txItems_unknown s (l :: items) Hunknown).
Qed.

(** C2 (the code departs from it): on the state holding 50 units of rice and
    no client, a check-out for Jane / J1 whose only line names an unknown
    item appends no transaction and leaves the inventory as it was, but a
    client record for Jane is created all the same. *)
Theorem outbound_unknown_item_creates_client :
  let s := rice_50 in
  let s' := step s (RecordOutbound (outbound_Jane [line "nope" 1])
                                   "t2" "t2" "jane" "tx2") in
  unknown_item s "nope"
  ∧ transactions s' = transactions s
  ∧ inventory s' = inventory s
  ∧ clients s = []
  ∧ clients s' = [ {| client_id := Some "jane"; client_name := "Jane";
                      client_identifier := "J1"; client_contact := None;
                      client_allergies := None; client_notes := None;
                      client_createdAt := "t2"; client_updatedAt := "t2" |} ].
Proof.
  cbv zeta. split; [|by vm_compute].
  unfold unknown_item. vm_compute inventory. by repeat constructor.
Qed.

(** ** Cart lines that share an item *)

(** Each inventory item is decremented by the first cart line that names it,
    and by that line only. *)
Lemma outbound_inventory_first_line prev items timestamp n item :
  inventory prev !! n = Some item →
  outbound_inventory prev items timestamp !! n
  = Some match List.find (fun l => same (Some (cart_itemId l)) (item_id item)) items with
         | Some l => set_quantity item (Z.max 0 (item_quantity item - cart_quantity l))
                                  timestamp
         | None => item
         end.
Proof.
  unfold outbound_inventory. intros Hn.
  change (map ?f ?l) with (f <$> l). rewrite list_lookup_fmap, Hn. simpl.
  by destruct (List.find _ items).
Qed.

(** C3 (the code departs from it): with 50 units of rice, a check-out whose
    cart names rice twice, for 2 and for 3 units, is accepted and records
    both lines in its transaction, but leaves 48 units: the second line's
    quantity is not applied. *)
Theorem outbound_repeated_item_first_line_only :
  let s := rice_50 in
  let s' := step s (RecordOutbound (outbound_Jane [line "rice" 2; line "rice" 3])
                                   "t2" "t2" "jane" "tx2") in
  map item_quantity (inventory s) = [50]
  ∧ map item_quantity (inventory s') = [48]
  ∧ map (fun t => (tx_type t, map line_quantity (tx_items t))) (transactions s')
    = [(OUT, [2; 3]); (IN, [50])]
  ∧ Z.max 0 (50 - 3) ≠ 48
  ∧ Z.max 0 (50 - 2 - 3) ≠ 48.
Proof. cbv zeta. repeat split; by vm_compute. Qed.

(** ** Updating an existing item *)

(** The fields of an updated item: each is the partial's when the partial
    has it and the existing item's otherwise, [id] and [createdAt]
    included; [updatedAt] is the time of the call. *)
Lemma addOrUpdateItem_updated state partial now uuid existing :
  existing_item state partial = Some existing →
  let updated := fst (addOrUpdateItem state partial now uuid) in
  item_updatedAt updated = now
  ∧ item_name updated = p_name partial
  ∧ item_id updated = spread (item_id existing) (p_id partial)
  ∧ item_createdAt updated = spread_def (item_createdAt existing) (p_createdAt partial)
  ∧ item_quantity updated = spread_def (item_quantity existing) (p_quantity partial)
  ∧ item_barcode updated = spread (item_barcode existing) (p_barcode partial)
  ∧ item_category updated = spread_def (item_category existing) (p_category partial).
Proof. intros He. unfold addOrUpdateItem. rewrite He. simpl. by repeat split. Qed.

(** C4 (the code departs from it): with one item of id "a", barcode "123"
    and [createdAt] "t0" in stock, an update by id whose partial carries
    [createdAt: "1999"] leaves the item with [createdAt] "1999"; an update
    whose partial carries [id: "b"] and is resolved by the barcode "123"
    leaves the item with id "b"; and the same update with [id: undefined]
    leaves it with no id. *)
Theorem update_overwrites_id_and_createdAt :
  let s := beans_on_shelf in
  let by_id := AddOrUpdateItem partial_with_createdAt "t1" "u1" in
  let by_barcode id :=
    AddOrUpdateItem (item_partial (Given id) "Beans" (Given (Some "123")) None)
                    "t1" "u1" in
  map (fun i => (item_id i, item_createdAt i)) (inventory s) = [(Some "a", "t0")]
  ∧ map (fun i => (item_id i, item_createdAt i)) (inventory (step s by_id))
    = [(Some "a", "1999")]
  ∧ map (fun i => (item_id i, item_createdAt i))
        (inventory (step s (by_barcode (Some "b"))))
    = [(Some "b", "t0")]
  ∧ map (fun i => (item_id i, item_createdAt i)) (inventory (step s (by_barcode None)))
    = [(None, "t0")].
Proof. cbv zeta. repeat split; by vm_compute. Qed.

(** ** recordInbound *)

Lemma inbound_rejected_quantity options now uuid :
  in_quantity options <= 0 → recordInbound options now uuid = [].
Proof.
  intros Hq. unfold recordInbound.
  destruct (Z.eqb_spec (in_quantity options) 0) as [|Hne]; [done|].
  destruct (Z.leb_spec (in_quantity options) 0); [done|lia].
Qed.

Lemma inbound_not_rejected options now uuid :
  0 < in_quantity options →
  recordInbound options now uuid
  = [inbound_updater options (nullish (in_timestamp options) now) uuid].
Proof.
  intros Hq. unfold recordInbound.
  destruct (Z.eqb_spec (in_quantity options) 0) as [|Hne]; [lia|].
  destruct (Z.leb_spec (in_quantity options) 0); [lia|done].
Qed.

(** C5: [recordInbound] leaves the state as it is when the quantity is at
    most zero or when no item bears [itemId]; otherwise each item bearing
    [itemId] has its quantity increased by exactly the quantity given and its
    [updatedAt] set to the time stamp of the call, its other fields are kept,
    every other item and every other part of the state is unchanged, and
    exactly one transaction is added, at the head of the ledger: of type IN,
    with a single line carrying the quantity given and the name, weight and
    value the first item bearing [itemId] had before the call. *)
Theorem recordInbound_effect (s : RepositoryState) (options : InboundOptions)
    (now uuid : string) :
  let s' := step s (RecordInbound options now uuid) in
  let timestamp := nullish (in_timestamp options) now in
  (in_quantity options <= 0 → s' = s)
  ∧ (unknown_item s (in_itemId options) → s' = s)
  ∧ (∀ item,
       0 < in_quantity options →
       first_with_id (in_itemId options) (inventory s) = Some item →
       length (inventory s') = length (inventory s)
       ∧ (∀ n i, inventory s !! n = Some i →
            item_id i = Some (in_itemId options) →
            inventory s' !! n
            = Some {| item_id := item_id i;
                      item_name := item_name i;
                      item_category := item_category i;
                      item_barcode := item_barcode i;
                      item_quantity := item_quantity i + in_quantity options;
                      item_weightPerUnitLbs := item_weightPerUnitLbs i;
                      item_valuePerUnitUsd := item_valuePerUnitUsd i;
                      item_reorderThreshold := item_reorderThreshold i;
                      item_allergens := item_allergens i;
                      item_createdAt := item_createdAt i;
                      item_updatedAt := timestamp |})
       ∧ (∀ n i, inventory s !! n = Some i →
            item_id i ≠ Some (in_itemId options) →
            inventory s' !! n = Some i)
       ∧ (∃ tx l,
            transactions s' = tx :: transactions s
            ∧ length (transactions s') = S (length (transactions s))
            ∧ tx_type tx = IN
            ∧ tx_timestamp tx = timestamp
            ∧ tx_items tx = [l]
            ∧ line_quantity l = in_quantity options
            ∧ line_name l = item_name item
            ∧ line_weightPerUnitLbs l = item_weightPerUnitLbs item
            ∧ line_valuePerUnitUsd l = item_valuePerUnitUsd item)
       ∧ clients s' = clients s
       ∧ settings s' = settings s
       ∧ barcodeCache s' = barcodeCache s
       ∧ sources s' = sources s
       ∧ donors s' = donors s).
Proof.
  cbv zeta. unfold step. simpl. split; [|split].
  - intros Hq. by rewrite inbound_rejected_quantity.
  - intros Hunknown. unfold recordInbound.
    destruct (_ || _); [done|]. simpl. unfold inbound_updater.
    by rewrite find_none_unknown.
  - intros item Hq Hitem. rewrite inbound_not_rejected by done. simpl.
    unfold inbound_updater. unfold first_with_id in Hitem. rewrite Hitem. simpl.
    split; [by rewrite length_map|]. split; [|split].
    + intros n i Hn Hid. change (map ?f ?l) with (f <$> l).
      rewrite list_lookup_fmap, Hn. simpl.
      unfold same. by rewrite bool_decide_eq_true_2.
    + intros n i Hn Hid. change (map ?f ?l) with (f <$> l).
      rewrite list_lookup_fmap, Hn. simpl.
      unfold same. by rewrite bool_decide_eq_false_2.
    + split; [|done]. eexists _, _. split; [reflexivity|]. by repeat split.
Qed.

Lemma recordInbound_effect_witness :
  let s := run [AddOrUpdateItem (item_partial Absent "Rice" Absent (Some 0)) "t0" "rice"]
               defaultState in
  let s' := step s (RecordInbound (inbound "rice" 50) "t1" "tx1") in
  step s (RecordInbound (inbound "rice" 0) "t1" "tx1") = s
  ∧ step s (RecordInbound (inbound "beans" 50) "t1" "tx1") = s
  ∧ map item_quantity (inventory s') = [50]
  ∧ (∃ rice, inventory s' !! 0%nat = Some rice
             ∧ item_quantity rice = 50
             ∧ item_updatedAt rice = "t1"
             ∧ item_createdAt rice = "t0")
  ∧ ∃ tx l, transactions s' = tx :: transactions s
            ∧ tx_type tx = IN ∧ tx_items tx = [l] ∧ line_quantity l = 50
            ∧ line_name l = "Rice".
Proof.
  intros s s'.
  split.
  { destruct (recordInbound_effect s (inbound "rice" 0) "t1" "tx1") as (H & _).
    apply H. simpl. lia. }
  split.
  { destruct (recordInbound_effect s (inbound "beans" 50) "t1" "tx1") as (_ & H & _).
    apply H. unfold unknown_item. simpl. by repeat constructor. }
  split; [reflexivity|].
  destruct (recordInbound_effect s (inbound "rice" 50) "t1" "tx1") as (_ & _ & H).
  destruct (H (created_item (item_partial Absent "Rice" Absent (Some 0)) "t0" "rice"))
    as (_ & Hitem & _ & (tx & l & Htx & _ & Hty & _ & Hl & Hq & Hn & _) & _);
    [simpl; lia|reflexivity|].
  split.
  { eexists. split.
    - exact (Hitem 0%nat
               (created_item (item_partial Absent "Rice" Absent (Some 0)) "t0" "rice")
               eq_refl eq_refl).
    - by repeat split. }
  exists tx, l. by repeat split.
Defined.

(** ** Identity resolution of addOrUpdateItem *)

Lemma same_true (a b : option string) : same a b = true ↔ a = b.
Proof. unfold same. apply bool_decide_eq_true. Qed.

Lemma same_false (a b : option string) : same a b = false ↔ a ≠ b.
Proof. unfold same. apply bool_decide_eq_false. Qed.






Lemma map_keep {A} (c : A → bool) (g : A → A) l :
  Forall (fun x => c x = false) l → map (fun x => if c x then g x else x) l = l.
Proof. induction 1 as [|x l Hx _ IH]; [done|]. simpl. by rewrite Hx, IH. Qed.









Lemma find_all_false {A} (f : A → bool) l :
  Forall (fun x => f x = false) l → List.find f l = None.
Proof. induction 1 as [|x l Hx _ IH]; [done|]. simpl. by rewrite Hx. Qed.

Lemma find_app_none {A} (f : A → bool) l l' :
  List.find f l = None → List.find f (l ++ l') = List.find f l'.
Proof.
  induction l as [|x l IH]; [done|]. simpl. destruct (f x); [done|apply IH].
Qed.



(** [addOrUpdateItem] looks for the existing item in the state of the render
    its closure belongs to, not in the state its update is applied to: of two
    calls made from one render neither sees the item the other is about to
    add, and both append.  The amended statement below speaks of calls each
    made on the state the call before has left, and of those only. *)
Lemma same_render_twice_appends :
  let rice name := item_partial (Given (Some "rice")) name Absent None in
  count_id "rice"
    (inventory
       (flush (queued defaultState (AddOrUpdateItem (rice "Rice") "t0" "u1")
               ++ queued defaultState (AddOrUpdateItem (rice "Brown rice") "t1" "u2"))
              defaultState))
  = 2%nat.
Proof. reflexivity. Qed.



(** ** The durable store *)

Ltac json_fields :=
  cbn [item_id item_name item_category item_barcode item_quantity
       item_weightPerUnitLbs item_valuePerUnitUsd item_reorderThreshold
       item_allergens item_createdAt item_updatedAt
       client_id client_name client_identifier client_contact client_allergies
       client_notes client_createdAt client_updatedAt
       line_itemId line_name line_quantity line_weightPerUnitLbs
       line_valuePerUnitUsd latitude longitude accuracy
       tx_id tx_type tx_timestamp tx_items tx_source tx_donor tx_clientId
       tx_clientName tx_location visitWarningDays
       cache_name cache_category cache_weightPerUnitLbs cache_allergens cachedAt
       inventory clients transactions settings barcodeCache sources donors];
  repeat (cbn [optional required app as_object get get_optional get_required
               String.eqb Ascii.eqb Bool.eqb andb mbind option_bind];
          rewrite ?of_to_json).

#[export] Instance JsonLaw_string : JsonLaw string.
Proof. by intros x. Qed.

#[export] Instance JsonLaw_Q : JsonLaw Q.
Proof. by intros x. Qed.

#[export] Instance JsonLaw_Z : JsonLaw Z.
Proof. by intros x. Qed.

#[export] Instance JsonLaw_list {A} `{JsonLaw A} : JsonLaw (list A).
Proof.
  intros l. unfold of_json, to_json, Json_list.
  change (map ?f l) with (f <$> l). apply mapM_fmap_Some. apply of_to_json.
Qed.

#[export] Instance JsonLaw_InventoryItem : JsonLaw InventoryItem.
Proof.
  intros [[id|] name category [barcode|] quantity weight value [threshold|]
          [allergens|] created updated];
    unfold of_json, to_json, Json_InventoryItem; json_fields; reflexivity.
Qed.

#[export] Instance JsonLaw_ClientRecord : JsonLaw ClientRecord.
Proof.
  intros [[id|] name identifier [contact|] [allergies|] [notes|] created updated];
    unfold of_json, to_json, Json_ClientRecord; json_fields; reflexivity.
Qed.

#[export] Instance JsonLaw_TransactionItem : JsonLaw TransactionItem.
Proof.
  intros [[itemId|] name quantity weight value];
    unfold of_json, to_json, Json_TransactionItem; json_fields; reflexivity.
Qed.

#[export] Instance JsonLaw_TransactionType : JsonLaw TransactionType.
Proof. by intros []. Qed.

#[export] Instance JsonLaw_GeoLocation : JsonLaw GeoLocation.
Proof.
  intros [lat lon [acc|]];
    unfold of_json, to_json, Json_GeoLocation; json_fields; reflexivity.
Qed.

#[export] Instance JsonLaw_Transaction : JsonLaw Transaction.
Proof.
  intros [id type timestamp items [source|] [donor|] [clientId|] [clientName|]
          [location|]];
    unfold of_json, to_json, Json_Transaction; json_fields; reflexivity.
Qed.

#[export] Instance JsonLaw_Settings : JsonLaw Settings.
Proof.
  intros [days]. unfold of_json, to_json, Json_Settings. json_fields. reflexivity.
Qed.

#[export] Instance JsonLaw_BarcodeCacheEntry : JsonLaw BarcodeCacheEntry.
Proof.
  intros [[name|] [category|] [weight|] [allergens|] stamp];
    unfold of_json, to_json, Json_BarcodeCacheEntry; json_fields; reflexivity.
Qed.

#[export] Instance JsonLaw_Record {A} `{JsonLaw A} : JsonLaw (gmap string A).
Proof.
  intros m. unfold of_json, to_json, Json_Record. cbn [as_object mbind option_bind].
  change (map ?f (map_to_list m)) with (f <$> map_to_list m).
  rewrite mapM_fmap_Some.
  - simpl. by rewrite list_to_map_to_list.
  - intros [k v]. simpl. by rewrite of_to_json.
Qed.

Lemma as_RepositoryState_state_object (s : RepositoryState) :
  as_RepositoryState (state_object s) = Some s.
Proof.
  destruct s. unfold as_RepositoryState, state_object. json_fields. reflexivity.
Qed.

Lemma get_set (k k' : string) (v : json) (o : object) :
  get k (set k' v o) = if String.eqb k k' then Some v else get k o.
Proof.
  induction o as [|[k0 v0] o IH]; simpl.
  - by destruct (String.eqb k k').
  - destruct (String.eqb_spec k' k0) as [->|Hne]; simpl.
    + by destruct (String.eqb k k0).
    + rewrite IH. destruct (String.eqb_spec k k') as [->|]; [|done].
      destruct (String.eqb_spec k' k0); [done|done].
Qed.

Lemma get_absent (k : string) (o : object) : k ∉ map fst o → get k o = None.
Proof.
  induction o as [|[k0 v0] o IH]; [done|]. simpl. intros Hk.
  apply not_elem_of_cons in Hk as [Hne Hk].
  destruct (String.eqb_spec k k0) as [->|]; [done|]. by apply IH.
Qed.

(** [{...base, ...props}] property by property: the value of [props] where it
    has the property, that of [base] elsewhere. *)
Lemma get_spread (k : string) (props base : object) :
  well_formed props →
  get k (fold_left (fun o kv => set (fst kv) (snd kv) o) props base)
  = match get k props with Some v => Some v | None => get k base end.
Proof.
  unfold well_formed. revert base.
  induction props as [|[k0 v0] props IH]; intros base Hnd; [done|].
  simpl in *. apply NoDup_cons in Hnd as [Hk0 Hnd].
  rewrite IH by done. rewrite get_set.
  destruct (String.eqb_spec k k0) as [->|]; [|done].
  by rewrite get_absent.
Qed.

Lemma spread_own_state (d s : RepositoryState) :
  object_spread (state_object d) (JObj (state_object s)) = state_object s.
Proof. reflexivity. Qed.

(** C7: what [saveState] wrote, [loadState] reads back as the same state,
    whenever the store can be read and takes the write; and [loadState]
    always returns an object: the default state where there is no global
    scope, the store cannot be read, holds no data, an empty string or a
    text that does not parse, and otherwise the parsed object completed,
    property by property, with the defaults for the properties it lacks, so
    every property of the default state is defined in every loaded object. *)
Theorem store_round_trip_and_defaults :
  (∀ (state : RepositoryState) (localStorage : Storage),
     readable localStorage = true →
     writable localStorage = true →
     as_RepositoryState (loadState (saveState state (Some localStorage))) = Some state)
  ∧ loadState None = state_object defaultState
  ∧ (∀ localStorage : Storage,
       readable localStorage = false ∨ stored localStorage = None
       ∨ stored localStorage = Some EmptyText
       ∨ stored localStorage = Some Malformed →
       loadState (Some localStorage) = state_object defaultState)
  ∧ (∀ (localStorage : Storage) (parsed : object) (k : string),
       readable localStorage = true →
       stored localStorage = Some (Text (JObj parsed)) →
       well_formed parsed →
       get k (loadState (Some localStorage))
       = match get k parsed with
         | Some v => Some v
         | None => get k (state_object defaultState)
         end)
  ∧ (∀ (window : Window) (k : string),
       is_Some (get k (state_object defaultState)) →
       is_Some (get k (loadState window))).
Proof.
  split; [|split; [|split; [|split]]].
  - intros state localStorage Hr Hw.
    unfold saveState, setItem. rewrite Hw. cbn [try_catch].
    unfold loadState, getItem. cbn [readable stored]. rewrite Hr.
    cbn [JSON_stringify falsy JSON_parse try_catch mbind outcome_bind mret outcome_ret].
    rewrite spread_own_state.
    apply as_RepositoryState_state_object.
  - reflexivity.
  - intros localStorage H. unfold loadState, getItem.
    destruct (readable localStorage); [|reflexivity].
    destruct H as [H | [-> | [-> | ->]]]; [discriminate|reflexivity..].
  - intros localStorage parsed k Hr Hraw Hwf.
    unfold loadState, getItem. rewrite Hr, Hraw.
    cbn [falsy JSON_parse try_catch mbind outcome_bind mret outcome_ret].
    unfold object_spread. cbn [own_properties]. by apply get_spread.
  - intros window k Hk. destruct window as [localStorage|]; [|done].
    unfold loadState, getItem.
    destruct (readable localStorage); [|done].
    destruct (stored localStorage) as [[| |v]|];
      cbn [falsy JSON_parse try_catch mbind outcome_bind mret outcome_ret];
      try done.
    unfold object_spread. generalize (own_properties v) as props.
    generalize dependent (state_object defaultState).
    intros base Hbase props. revert base Hbase.
    induction props as [|[k0 v0] props IH]; intros base Hbase; [done|].
    simpl. apply IH. rewrite get_set. by destruct (String.eqb k k0).
Qed.

Lemma store_round_trip_and_defaults_witness :
  as_RepositoryState (loadState (saveState rice_50 (Some corrupt_store)))
  = Some rice_50
  ∧ loadState (Some corrupt_store) = state_object defaultState
  ∧ get "sources" (loadState (Some partial_store)) = Some (JArr [JStr "Farm"])
  ∧ get "settings" (loadState (Some partial_store))
    = Some (to_json (settings defaultState))
  ∧ is_Some (get "inventory" (loadState (Some partial_store))).
Proof.
  destruct store_round_trip_and_defaults as (Hround & _ & Hdefault & Hmerge & Htotal).
  split; [by apply Hround|].
  split; [apply Hdefault; simpl; tauto|].
  assert (well_formed [("sources", JArr [JStr "Farm"]); ("donors", JArr [])]) as Hwf.
  { unfold well_formed. simpl. apply NoDup_cons. split; [|apply NoDup_singleton].
    intros Hin%list_elem_of_singleton. discriminate. }
  split; [by rewrite (Hmerge partial_store _ "sources" eq_refl eq_refl Hwf)|].
  split; [by rewrite (Hmerge partial_store _ "settings" eq_refl eq_refl Hwf)|].
  by apply Htotal.
Defined.

(** ** The date-range report *)

Lemma ltb_negb_leb (a b : string) : String.ltb a b = negb (String.leb b a).
Proof.
  unfold String.ltb, String.leb. rewrite (String.compare_antisym b a).
  by destruct (String.compare a b).
Qed.

Lemma in_range_spec (from to : string) (tx : Transaction) :
  from ≠ EmptyString → to ≠ EmptyString →
  in_range from to tx = is_OUT (tx_type tx) && date_within from to tx.
Proof.
  intros Hfrom Hto. unfold in_range, date_within.
  assert (truthy (Some from) = true) as -> by (by destruct from).
  assert (truthy (Some to) = true) as -> by (by destruct to).
  rewrite !ltb_negb_leb. simpl.
  destruct (String.leb from _), (String.leb _ to), (is_OUT _); reflexivity.
Qed.

Lemma Qmult_swap (a b : Q) : (a * b)%Q = (b * a)%Q.
Proof.
  destruct a as [an ad], b as [bn bd]. unfold Qmult. simpl.
  f_equal; [apply Z.mul_comm|apply Pos.mul_comm].
Qed.

(** The nested loops visit the line items of the selected transactions in
    ledger order. *)
Lemma nested_loops_flatten {A} (f : A → TransactionItem → A)
    (selected : list Transaction) (acc : A) :
  fold_left (fun a tx => fold_left f (tx_items tx) a) selected acc
  = fold_left f (line_items selected) acc.
Proof.
  revert acc. induction selected as [|tx selected IH]; intros acc; [done|].
  unfold line_items. simpl. rewrite fold_left_app. apply IH.
Qed.

Lemma pair_loop_sums (items : list TransactionItem) (w v : Q) :
  fold_left
    (fun '(totalWeight, totalValue) item =>
       ((totalWeight + line_weightPerUnitLbs item * inject_Z (line_quantity item))%Q,
        (totalValue + line_valuePerUnitUsd item * inject_Z (line_quantity item))%Q))
    items (w, v)
  = (fold_left Qplus (map line_weight items) w,
     fold_left Qplus (map line_value items) v).
Proof.
  revert w v. induction items as [|item items IH]; intros w v; [done|].
  simpl. rewrite IH. unfold line_weight, line_value.
  by rewrite (Qmult_swap (line_weightPerUnitLbs item)),
             (Qmult_swap (line_valuePerUnitUsd item)).
Qed.

(** C8: for a range given by two non-empty date strings, the report selects
    exactly the transactions of type OUT whose date-only prefix (the first ten
    characters of the time stamp) is, in the lexicographic order on strings,
    at least [from] and at most [to], in ledger order; its total weight and
    total value are the sums over the line items of the selected
    transactions of quantity × weightPerUnitLbs and of
    quantity × valuePerUnitUsd. *)
Theorem report_selection_and_totals (txs : list Transaction) (from to : string) :
  from ≠ EmptyString → to ≠ EmptyString →
  let selected := rangeTx from to txs in
  selected
  = List.filter (fun tx => is_OUT (tx_type tx) && date_within from to tx) txs
  ∧ (∀ tx, In tx selected ↔
           In tx txs ∧ tx_type tx = OUT
           ∧ String.leb from (slice0 10 (tx_timestamp tx)) = true
           ∧ String.leb (slice0 10 (tx_timestamp tx)) to = true)
  ∧ totals selected
    = (sum_Q (map line_weight (line_items selected)),
       sum_Q (map line_value (line_items selected))).
Proof.
  intros Hfrom Hto selected.
  assert (selected
          = List.filter (fun tx => is_OUT (tx_type tx) && date_within from to tx) txs)
    as Hsel.
  { unfold selected, rangeTx. apply List.filter_ext. intros tx.
    by apply in_range_spec. }
  split; [exact Hsel|]. split.
  - intros tx. rewrite Hsel, List.filter_In. unfold date_within.
    rewrite !andb_true_iff. destruct (tx_type tx); simpl; intuition discriminate.
  - unfold totals. rewrite nested_loops_flatten. apply pair_loop_sums.
Qed.

Lemma report_selection_and_totals_witness :
  let selected := rangeTx "2024-03-01" "2024-03-09" sample_ledger in
  map tx_timestamp selected = ["2024-03-09T10:00:00.000Z"; "2024-03-01T23:59:59.000Z"]
  ∧ totals selected
    = (sum_Q (map line_weight (line_items selected)),
       sum_Q (map line_value (line_items selected)))
  ∧ Qeq (fst (totals selected)) 9 ∧ Qeq (snd (totals selected)) 12.
Proof.
  intros selected.
  destruct (report_selection_and_totals sample_ledger "2024-03-01" "2024-03-09")
    as (Hsel & _ & Htotals); [done|done|].
  split; [reflexivity|]. split; [exact Htotals|]. split; reflexivity.
Defined.

(** ** The ledger *)

Lemma find_known s itemId :
  first_with_id itemId (inventory s) = None ↔ known_item s itemId = false.
Proof.
  unfold first_with_id, known_item.
  induction (inventory s) as [|x l IH]; [done|].
  simpl. destruct (same (item_id x) (Some itemId)); simpl; [split; discriminate|done].
Qed.

Lemma outbound_txItems_nil s items :
  outbound_txItems s items = []
  ↔ existsb (fun l => known_item s (cart_itemId l)) items = false.
Proof.
  unfold outbound_txItems. induction items as [|l items IH]; [done|].
  simpl. unfold outbound_line at 1.
  destruct (List.find _ (inventory s)) as [base|] eqn:Hfind.
  - assert (known_item s (cart_itemId l) = true) as ->.
    { destruct (known_item s (cart_itemId l)) eqn:Hk; [done|].
      apply find_known in Hk. unfold first_with_id in Hk. congruence. }
    simpl. split; discriminate.
  - apply (find_known s (cart_itemId l)) in Hfind. by rewrite Hfind.
Qed.

Lemma inbound_transactions s options now uuid :
  transactions (step s (RecordInbound options now uuid))
  = if inbound_accepted s options
    then match first_with_id (in_itemId options) (inventory s) with
         | Some item =>
             [inbound_tx item options (nullish (in_timestamp options) now) uuid]
         | None => []
         end ++ transactions s
    else transactions s.
Proof.
  unfold step, inbound_accepted. simpl.
  destruct (Z.ltb_spec 0 (in_quantity options)) as [Hq|Hq]; simpl.
  - rewrite inbound_not_rejected by done. simpl. unfold inbound_updater.
    fold (first_with_id (in_itemId options) (inventory s)).
    destruct (first_with_id _ _) eqn:Hfind; simpl.
    + destruct (known_item s (in_itemId options)) eqn:Hk; [done|].
      apply find_known in Hk. congruence.
    + apply find_known in Hfind. by rewrite Hfind.
  - by rewrite inbound_rejected_quantity.
Qed.

Lemma outbound_transactions s options now now_client uuid_client uuid_tx :
  transactions (step s (RecordOutbound options now now_client uuid_client uuid_tx))
  = if outbound_accepted s options
    then outbound_tx
           (fst (upsertClient s (outbound_partial (out_client options))
                              now_client uuid_client))
           (outbound_txItems s (out_items options)) options
           (nullish (out_timestamp options) now) uuid_tx
         :: transactions s
    else transactions s.
Proof.
  unfold step. simpl.
  destruct (recordOutbound_cases s options now now_client uuid_client uuid_tx)
    as [Hq | (client & -> & Hq)].
  - rewrite Hq. unfold recordOutbound in Hq. unfold outbound_accepted.
    destruct (out_items options); [done|]. by destruct (upsertClient _ _ _ _).
  - rewrite Hq. simpl. rewrite upsertClient_transactions.
    unfold outbound_updater, outbound_accepted.
    destruct (outbound_txItems s (out_items options)) eqn:Hitems.
    + apply outbound_txItems_nil in Hitems. by rewrite Hitems.
    + destruct (existsb _ (out_items options)) eqn:Hex; [done|].
      apply outbound_txItems_nil in Hex. congruence.
Qed.

(** C9: the ledger is ordered newest first.  A [recordInbound] or
    [recordOutbound] call that is not rejected puts one new transaction, of
    type IN or OUT, at the head of [transactions], before the transactions
    that were there, which stay as they were and in their order; a rejected
    call and every other operation leave [transactions] as it was.  So every
    operation keeps the previous ledger as a suffix. *)
Theorem ledger_newest_first (s : RepositoryState) (op : Op) :
  (∃ new, transactions (step s op) = new ++ transactions s ∧ (length new ≤ 1)%nat)
  ∧ match op with
    | RecordInbound options _ uuid =>
        if inbound_accepted s options
        then ∃ tx, transactions (step s op) = tx :: transactions s
                   ∧ tx_type tx = IN ∧ tx_id tx = uuid
        else transactions (step s op) = transactions s
    | RecordOutbound options _ _ _ uuid_tx =>
        if outbound_accepted s options
        then ∃ tx, transactions (step s op) = tx :: transactions s
                   ∧ tx_type tx = OUT ∧ tx_id tx = uuid_tx
        else transactions (step s op) = transactions s
    | _ => transactions (step s op) = transactions s
    end.
Proof.
  assert (∀ l : list Transaction, ∃ new, l = new ++ l ∧ (length new ≤ 1)%nat) as Hsame.
  { intros l. exists []. simpl. split; [done|lia]. }
  assert (∀ (t : Transaction) l, ∃ new, t :: l = new ++ l ∧ (length new ≤ 1)%nat)
    as Hcons.
  { intros t l. exists [t]. simpl. split; [done|lia]. }
  destruct op.
  - assert (transactions (step s (AddOrUpdateItem partial now uuid)) = transactions s)
      as ->; [|by split].
    unfold step. simpl. unfold addOrUpdateItem. by destruct (existing_item s partial).
  - by split.
  - rewrite inbound_transactions. destruct (inbound_accepted s options) eqn:Hacc;
      [|by split].
    unfold inbound_accepted in Hacc. apply andb_prop in Hacc as [_ Hk].
    destruct (first_with_id _ _) eqn:Hfind.
    + simpl. split; [done|]. by eexists.
    + apply find_known in Hfind. congruence.
  - rewrite outbound_transactions. destruct (outbound_accepted s options);
      [|by split].
    split; [done|]. by eexists.
  - assert (transactions (step s (UpsertClient partial now uuid)) = transactions s)
      as ->; [|by split].
    unfold step. simpl. apply upsertClient_transactions.
  - by split.
  - by split.
  - assert (transactions (step s (AddSource source)) = transactions s) as ->;
      [|by split].
    unfold step. simpl. unfold addSource. by destruct (bool_decide _).
  - assert (transactions (step s (AddDonor donor)) = transactions s) as ->;
      [|by split].
    unfold step. simpl. unfold addDonor. by destruct (bool_decide _).
Qed.

(** ** The barcode cache *)

(** C10: [upsertBarcodeCache(barcode, entry)] changes the [barcodeCache]
    field only; there, the entry at [barcode] becomes the fields given plus
    [cachedAt] set to the time of the call, whatever was there before, and
    the entry at every other barcode is unchanged. *)
Theorem upsertBarcodeCache_frame (s : RepositoryState) (barcode : string)
    (entry : CacheFields) (now : string) :
  let s' := step s (UpsertBarcodeCache barcode entry now) in
  inventory s' = inventory s
  ∧ clients s' = clients s
  ∧ transactions s' = transactions s
  ∧ settings s' = settings s
  ∧ sources s' = sources s
  ∧ donors s' = donors s
  ∧ barcodeCache s' !! barcode
    = Some {| cache_name := e_name entry;
              cache_category := e_category entry;
              cache_weightPerUnitLbs := e_weightPerUnitLbs entry;
              cache_allergens := e_allergens entry;
              cachedAt := now |}
  ∧ ∀ other, other ≠ barcode → barcodeCache s' !! other = barcodeCache s !! other.
Proof.
  cbv zeta. unfold step. simpl. repeat split.
  - apply lookup_insert_eq.
  - intros other Hne. by apply lookup_insert_ne.
Qed.

Lemma upsertBarcodeCache_frame_witness :
  let s := step defaultState
                (UpsertBarcodeCache "111" (mkCacheFields (Some "Oats") None None None) "t0") in
  let s' := step s (UpsertBarcodeCache "123" (mkCacheFields (Some "Beans") None None None)
                                       "t1") in
  barcodeCache s' !! "111" = barcodeCache s !! "111"
  ∧ cache_name <$> barcodeCache s' !! "123" = Some (Some "Beans").
Proof.
  intros s s'.
  destruct (upsertBarcodeCache_frame s "123" (mkCacheFields (Some "Beans") None None None)
                                     "t1") as (_ & _ & _ & _ & _ & _ & Hat & Hother).
  split; [by apply Hother|].
  fold s' in Hat. by rewrite Hat.
Defined.

(** * Further properties of the repository engine *)

Lemma state_eq (a b : RepositoryState) :
  inventory a = inventory b → clients a = clients b →
  transactions a = transactions b → settings a = settings b →
  barcodeCache a = barcodeCache b → sources a = sources b → donors a = donors b →
  a = b.
Proof. destruct a, b. simpl. by intros -> -> -> -> -> -> ->. Qed.

Lemma addOrUpdateItem_frame state partial now uuid prev :
  let s' := snd (addOrUpdateItem state partial now uuid) prev in
  clients s' = clients prev ∧ transactions s' = transactions prev
  ∧ settings s' = settings prev ∧ barcodeCache s' = barcodeCache prev
  ∧ sources s' = sources prev ∧ donors s' = donors prev.
Proof. unfold addOrUpdateItem. by destruct (existing_item state partial). Qed.

Lemma upsertClient_frame state partial now uuid prev :
  let s' := snd (upsertClient state partial now uuid) prev in
  inventory s' = inventory prev ∧ transactions s' = transactions prev
  ∧ settings s' = settings prev ∧ barcodeCache s' = barcodeCache prev
  ∧ sources s' = sources prev ∧ donors s' = donors prev.
Proof. unfold upsertClient. by destruct (existing_client state partial). Qed.

Lemma inbound_updater_frame options timestamp uuid prev :
  let s' := inbound_updater options timestamp uuid prev in
  clients s' = clients prev ∧ settings s' = settings prev
  ∧ barcodeCache s' = barcodeCache prev
  ∧ sources s' = sources prev ∧ donors s' = donors prev.
Proof. unfold inbound_updater. by destruct (List.find _ _). Qed.

Lemma outbound_updater_frame client options timestamp uuid prev :
  let s' := outbound_updater client options timestamp uuid prev in
  settings s' = settings prev ∧ barcodeCache s' = barcodeCache prev
  ∧ sources s' = sources prev ∧ donors s' = donors prev.
Proof. unfold outbound_updater. by destruct (outbound_txItems _ _). Qed.

(** X1: each part of the state is replaced only by the operations meant for
    it: the inventory by [addOrUpdateItem], [adjustItemQuantity],
    [recordInbound] and [recordOutbound]; the clients by [upsertClient] and
    [recordOutbound]; the settings, the barcode cache, the sources and the
    donors each by its one operation. *)
Theorem operations_frame (s : RepositoryState) (op : Op) :
  (touches_inventory op = false → inventory (step s op) = inventory s)
  ∧ (touches_clients op = false → clients (step s op) = clients s)
  ∧ (touches_settings op = false → settings (step s op) = settings s)
  ∧ (touches_barcodeCache op = false → barcodeCache (step s op) = barcodeCache s)
  ∧ (touches_sources op = false → sources (step s op) = sources s)
  ∧ (touches_donors op = false → donors (step s op) = donors s).
Proof.
  destruct op; unfold step; simpl.
  - destruct (addOrUpdateItem_frame s partial now uuid s) as (? & ? & ? & ? & ? & ?).
    by repeat split.
  - by repeat split.
  - unfold recordInbound. destruct (_ || _); simpl; [by repeat split|].
    destruct (inbound_updater_frame options (nullish (in_timestamp options) now) uuid s)
      as (? & ? & ? & ? & ?).
    by repeat split.
  - destruct (recordOutbound_cases s options now now_client uuid_client uuid_tx)
      as [-> | (client & _ & ->)]; [by repeat split|].
    simpl.
    destruct (upsertClient_frame s (outbound_partial (out_client options))
                now_client uuid_client
                (outbound_updater client options (nullish (out_timestamp options) now)
                                  uuid_tx s)) as (_ & _ & -> & -> & -> & ->).
    destruct (outbound_updater_frame client options
                (nullish (out_timestamp options) now) uuid_tx s) as (? & ? & ? & ?).
    by repeat split.
  - destruct (upsertClient_frame s partial now uuid s) as (? & ? & ? & ? & ? & ?).
    by repeat split.
  - by repeat split.
  - by repeat split.
  - unfold addSource. destruct (bool_decide _); by repeat split.
  - unfold addDonor. destruct (bool_decide _); by repeat split.
Qed.

Lemma operations_frame_witness :
  let s' := step rice_50 (AdjustItemQuantity "rice" (-1) "t2") in
  clients s' = clients rice_50 ∧ settings s' = settings rice_50
  ∧ sources s' = sources rice_50.
Proof.
  intros s'.
  destruct (operations_frame rice_50 (AdjustItemQuantity "rice" (-1) "t2"))
    as (_ & Hc & Hs & _ & Hsrc & _).
  split; [by apply Hc|]. split; [by apply Hs|by apply Hsrc].
Defined.

(** ** adjustItemQuantity *)

(** X2: [adjustItemQuantity] with an id no item bears changes nothing: the
    state after the call is the state before. *)
Theorem adjust_unknown_item (s : RepositoryState) (itemId : string) (delta : Z)
    (now : string) :
  unknown_item s itemId → step s (AdjustItemQuantity itemId delta now) = s.
Proof.
  intros Hunknown. unfold step. simpl. unfold adjustItemQuantity.
  apply state_eq; try reflexivity. simpl.
  unfold unknown_item in Hunknown.
  induction Hunknown as [|i l Hi _ IH]; [done|].
  simpl. rewrite IH. by rewrite (proj2 (same_false _ _) Hi).
Qed.

Lemma adjust_unknown_item_witness :
  step rice_50 (AdjustItemQuantity "beans" (-3) "t2") = rice_50.
Proof.
  apply adjust_unknown_item. unfold unknown_item. simpl.
  constructor; [discriminate|constructor].
Defined.

(** X3: two successive adjustments of one item act as the single adjustment
    by the sum of the deltas, made at the time of the second, when the
    second delta is at most zero, or when the first is at least zero and no
    quantity is negative.  (A decrement that was clamped is not undone by a
    later increment.) *)
Theorem adjust_twice (s : RepositoryState) (itemId : string) (a b : Z)
    (now1 now2 : string) :
  b <= 0 ∨ (0 <= a ∧ quantities_nonneg s) →
  step (step s (AdjustItemQuantity itemId a now1)) (AdjustItemQuantity itemId b now2)
  = step s (AdjustItemQuantity itemId (a + b) now2).
Proof.
  intros Hab. unfold step. simpl. unfold adjustItemQuantity.
  apply state_eq; try reflexivity. simpl. rewrite List.map_map.
  assert (Forall (fun i => b <= 0 ∨ (0 <= a ∧ 0 <= item_quantity i)) (inventory s))
    as Hall.
  { destruct Hab as [Hb | [Ha Hs]].
    - apply Forall_forall. auto.
    - eapply Forall_impl; [exact Hs|]. auto. }
  induction Hall as [|i l Hi _ IH]; [done|].
  simpl. rewrite IH. f_equal.
  destruct (same (item_id i) (Some itemId)) eqn:Hid; simpl; [|by rewrite Hid].
  rewrite Hid. simpl. unfold set_quantity. simpl. f_equal. lia.
Qed.

Lemma adjust_twice_witness :
  step (step rice_50 (AdjustItemQuantity "rice" (-30) "t2"))
       (AdjustItemQuantity "rice" (-40) "t3")
  = step rice_50 (AdjustItemQuantity "rice" (-70) "t3")
  ∧ map item_quantity
        (inventory (step (step rice_50 (AdjustItemQuantity "rice" (-70) "t2"))
                         (AdjustItemQuantity "rice" 70 "t3")))
    = [70].
Proof.
  split; [|reflexivity].
  apply (adjust_twice rice_50 "rice" (-30) (-40) "t2" "t3"). left. lia.
Defined.

(** ** Returned records *)

Lemma addOrUpdateItem_returned_in s partial now uuid :
  In (fst (addOrUpdateItem s partial now uuid))
     (inventory (step s (AddOrUpdateItem partial now uuid))).
Proof.
  unfold step. simpl. unfold addOrUpdateItem.
  destruct (existing_item s partial) as [e|] eqn:He; simpl.
  - apply existing_item_in in He. apply in_map_iff. exists e.
    by rewrite (proj2 (same_true _ _) eq_refl).
  - apply in_or_app. right. by left.
Qed.

Lemma existing_client_in s partial e :
  existing_client s partial = Some e → In e (clients s).
Proof.
  unfold existing_client.
  destruct (truthy (read (cp_id partial)));
    [destruct (List.find _ (clients s)) eqn:Hid|].
  - intros [= <-]. by apply find_in in Hid as [? _].
  - intros He. by apply find_in in He as [? _].
  - intros He. by apply find_in in He as [? _].
Qed.

Lemma upsertClient_returned_in s partial now uuid :
  In (fst (upsertClient s partial now uuid))
     (clients (step s (UpsertClient partial now uuid))).
Proof.
  unfold step. simpl. unfold upsertClient.
  destruct (existing_client s partial) as [e|] eqn:He; simpl.
  - apply existing_client_in in He. apply in_map_iff. exists e.
    by rewrite (proj2 (same_true _ _) eq_refl).
  - apply in_or_app. right. by left.
Qed.

(** X4: the item that [addOrUpdateItem] returns is an item of the inventory
    its update leaves, and [upsertClient] likewise returns a client of the
    resulting state; so a caller may use the returned id at once. *)
Theorem returned_record_is_stored (s : RepositoryState) :
  (∀ partial now uuid,
     In (fst (addOrUpdateItem s partial now uuid))
        (inventory (step s (AddOrUpdateItem partial now uuid))))
  ∧ (∀ partial now uuid,
       In (fst (upsertClient s partial now uuid))
          (clients (step s (UpsertClient partial now uuid)))).
Proof.
  split; intros partial now uuid;
    [apply addOrUpdateItem_returned_in|apply upsertClient_returned_in].
Qed.

(** ** upsertClient *)




(** ** The vocabulary lists *)

Lemma operations_frame_aux s op :
  (touches_sources op = false → sources (step s op) = sources s)
  ∧ (touches_donors op = false → donors (step s op) = donors s).
Proof.
  destruct op; unfold step; simpl.
  - destruct (addOrUpdateItem_frame s partial now uuid s) as (? & ? & ? & ? & ? & ?).
    by split.
  - by split.
  - unfold recordInbound. destruct (_ || _); simpl; [by split|].
    destruct (inbound_updater_frame options (nullish (in_timestamp options) now) uuid s)
      as (? & ? & ? & ? & ?).
    by split.
  - destruct (recordOutbound_cases s options now now_client uuid_client uuid_tx)
      as [-> | (client & _ & ->)]; [by split|].
    simpl.
    destruct (upsertClient_frame s (outbound_partial (out_client options))
                now_client uuid_client
                (outbound_updater client options (nullish (out_timestamp options) now)
                                  uuid_tx s)) as (_ & _ & _ & _ & -> & ->).
    destruct (outbound_updater_frame client options
                (nullish (out_timestamp options) now) uuid_tx s) as (? & ? & ? & ?).
    by split.
  - destruct (upsertClient_frame s partial now uuid s) as (? & ? & ? & ? & ? & ?).
    by split.
  - by split.
  - by split.
  - unfold addSource. destruct (bool_decide _); by split.
  - unfold addDonor. destruct (bool_decide _); by split.
Qed.

Lemma addSource_sources s source :
  sources (addSource source s)
  = if bool_decide (source ∈ sources s) then sources s else sources s ++ [source].
Proof. unfold addSource. by destruct (bool_decide _). Qed.

Lemma addDonor_donors s donor :
  donors (addDonor donor s)
  = if bool_decide (donor ∈ donors s) then donors s else donors s ++ [donor].
Proof. unfold addDonor. by destruct (bool_decide _). Qed.

Lemma grow_prefix_NoDup (l : list string) (x : string) :
  let l' := if bool_decide (x ∈ l) then l else l ++ [x] in
  l `prefix_of` l' ∧ (NoDup l → NoDup l') ∧ x ∈ l'.
Proof.
  cbv zeta. destruct (bool_decide_reflect (x ∈ l)) as [Hin|Hnotin].
  - by repeat split.
  - split; [by exists [x]|]. split.
    + intros Hnd. apply NoDup_app. repeat split; [done| |apply NoDup_singleton].
      intros y Hy ->%list_elem_of_singleton. done.
    + apply elem_of_app. right. by apply list_elem_of_singleton.
Qed.

Lemma step_vocabulary s op :
  sources s `prefix_of` sources (step s op)
  ∧ donors s `prefix_of` donors (step s op)
  ∧ (NoDup (sources s) → NoDup (sources (step s op)))
  ∧ (NoDup (donors s) → NoDup (donors (step s op))).
Proof.
  destruct (operations_frame_aux s op) as (Hsrc & Hdon).
  destruct op; try (rewrite Hsrc, Hdon by done; by repeat split).
  - rewrite Hdon by done. unfold step. simpl. rewrite addSource_sources.
    destruct (grow_prefix_NoDup (sources s) source) as (? & ? & _). by repeat split.
  - rewrite Hsrc by done. unfold step. simpl. rewrite addDonor_donors.
    destruct (grow_prefix_NoDup (donors s) donor) as (? & ? & _). by repeat split.
Qed.

(** X6: the vocabulary lists only grow at the end and never repeat an entry:
    along every sequence of operations the earlier [sources] and [donors]
    are prefixes of the later ones, lists without duplicates stay so (as
    they are from the default state), and after [addSource(x)] the list
    holds [x]; calling it again changes nothing. *)
Theorem vocabulary_append_only (ops : list Op) (s : RepositoryState) :
  sources s `prefix_of` sources (run ops s)
  ∧ donors s `prefix_of` donors (run ops s)
  ∧ (NoDup (sources s) → NoDup (sources (run ops s)))
  ∧ (NoDup (donors s) → NoDup (donors (run ops s)))
  ∧ NoDup (sources (run ops defaultState))
  ∧ NoDup (donors (run ops defaultState))
  ∧ (∀ x, x ∈ sources (step s (AddSource x))
          ∧ step (step s (AddSource x)) (AddSource x) = step s (AddSource x))
  ∧ (∀ x, x ∈ donors (step s (AddDonor x))
          ∧ step (step s (AddDonor x)) (AddDonor x) = step s (AddDonor x)).
Proof.
  assert (∀ s, sources s `prefix_of` sources (run ops s)
               ∧ donors s `prefix_of` donors (run ops s)
               ∧ (NoDup (sources s) → NoDup (sources (run ops s)))
               ∧ (NoDup (donors s) → NoDup (donors (run ops s)))) as Hrun.
  { induction ops as [|op ops IH]; intros s0; [by repeat split|].
    simpl. destruct (step_vocabulary s0 op) as (H1 & H2 & H3 & H4).
    destruct (IH (step s0 op)) as (I1 & I2 & I3 & I4).
    repeat split; [by etrans|by etrans|auto|auto]. }
  destruct (Hrun s) as (H1 & H2 & H3 & H4).
  destruct (Hrun defaultState) as (_ & _ & D3 & D4).
  split; [done|]. split; [done|]. split; [done|]. split; [done|].
  split; [apply D3; by apply (bool_decide_unpack _)|].
  split; [apply D4; by apply (bool_decide_unpack _)|].
  split; intros x.
  - unfold step. simpl.
    assert (x ∈ sources (addSource x s)) as Hin.
    { rewrite addSource_sources. apply grow_prefix_NoDup. }
    split; [done|].
    unfold addSource at 1. by rewrite (bool_decide_eq_true_2 _ Hin).
  - unfold step. simpl.
    assert (x ∈ donors (addDonor x s)) as Hin.
    { rewrite addDonor_donors. apply grow_prefix_NoDup. }
    split; [done|].
    unfold addDonor at 1. by rewrite (bool_decide_eq_true_2 _ Hin).
Qed.

Lemma vocabulary_append_only_witness :
  let ops := [AddSource "Farm"; AddDonor "Local Grocery"; AddSource "Donation";
              AddSource "Farm"] in
  sources (run ops defaultState)
  = ["Donation"; "Purchase"; "Transfer"; "Other"; "Farm"]
  ∧ NoDup (sources (run ops defaultState))
  ∧ NoDup (donors (run ops defaultState)).
Proof.
  intros ops.
  destruct (vocabulary_append_only ops defaultState) as (_ & _ & Hs & Hd & _).
  split; [reflexivity|].
  split; [apply Hs|apply Hd]; by apply (bool_decide_unpack _).
Defined.

(** ** Client history *)

(** X7: the transaction of a check-out that is not rejected carries as
    [clientId] the id of the record that [upsertClient] returned, and it goes
    to the head of the visit history read under that id, when it is not
    empty, and under no other.
    That id is the id the call passes when it passes one; when it passes
    none, it is the id drawn for a new client, and for a returning client,
    found by the identifier, there is no id at all: the spread of
    [id: undefined] has wiped it, the transaction carries no [clientId] and
    enters the history of no client, the one read under the id the client
    bore before included.  A rejected check-out and every [recordInbound]
    leave all visit histories as they were; without a client id the history
    is empty. *)
Theorem history_after_checkout (s : RepositoryState) :
  (∀ options now now_client uuid_client uuid_tx,
     let partial := outbound_partial (out_client options) in
     let client := fst (upsertClient s partial now_client uuid_client) in
     let s' := step s (RecordOutbound options now now_client uuid_client uuid_tx) in
     let tx := outbound_tx client (outbound_txItems s (out_items options)) options
                           (nullish (out_timestamp options) now) uuid_tx in
     (∀ clientId,
        snd (useClientWithHistory s' clientId)
        = (if truthy clientId && outbound_accepted s options
              && same (client_id client) clientId
           then [tx] else [])
          ++ snd (useClientWithHistory s clientId))
     ∧ tx_clientId tx = client_id client
     ∧ client_id client
       = match oc_id (out_client options) with
         | Some X => Some X
         | None =>
             match existing_client s partial with
             | Some _ => None
             | None => Some uuid_client
             end
         end
     ∧ (oc_id (out_client options) = None →
        (∃ c, In c (clients s)
              ∧ client_identifier c = oc_identifier (out_client options)) →
        tx_clientId tx = None
        ∧ ∀ clientId,
            snd (useClientWithHistory s' clientId)
            = snd (useClientWithHistory s clientId)))
  ∧ (∀ clientId options now uuid,
       snd (useClientWithHistory (step s (RecordInbound options now uuid)) clientId)
       = snd (useClientWithHistory s clientId))
  ∧ (∀ clientId, truthy clientId = false → useClientWithHistory s clientId = (None, [])).
Proof.
  split; [|split].
  - intros options now now_client uuid_client uuid_tx partial client s' tx.
    assert (Hhist : ∀ clientId,
              snd (useClientWithHistory s' clientId)
              = (if truthy clientId && outbound_accepted s options
                    && same (client_id client) clientId
                 then [tx] else [])
                ++ snd (useClientWithHistory s clientId)).
    { intros clientId. subst s' tx.
      unfold useClientWithHistory. rewrite outbound_transactions. fold partial client.
      destruct (truthy clientId); simpl; [|done].
      destruct (outbound_accepted s options); simpl; [|done].
      by destruct (same (client_id client) clientId). }
    assert (Hid : client_id client
                  = match oc_id (out_client options) with
                    | Some X => Some X
                    | None =>
                        match existing_client s partial with
                        | Some _ => None
                        | None => Some uuid_client
                        end
                    end).
    { subst client. unfold upsertClient.
      destruct (existing_client s partial) as [e|]; subst partial; simpl;
        by destruct (oc_id (out_client options)). }
    split; [exact Hhist|]. split; [done|]. split; [exact Hid|].
    intros Hnone (c & Hc & Hident).
    assert (Hwiped : client_id client = None).
    { rewrite Hid, Hnone.
      destruct (existing_client s partial) as [e|] eqn:He; [done|].
      exfalso. unfold existing_client in He. subst partial. simpl in He.
      rewrite Hnone in He. simpl in He.
      pose proof (find_none _ _ He c Hc) as Hfalse. simpl in Hfalse.
      by rewrite bool_decide_eq_true_2 in Hfalse. }
    split; [done|]. intros clientId. rewrite Hhist, Hwiped.
    destruct (truthy clientId) eqn:Ht; [|done].
    assert (same None clientId = false) as ->.
    { apply same_false. by destruct clientId. }
    by rewrite andb_false_r.
  - intros clientId options now uuid. unfold useClientWithHistory.
    rewrite inbound_transactions.
    destruct (truthy clientId); simpl; [|done].
    destruct (inbound_accepted s options); [|done].
    by destruct (first_with_id _ _).
  - intros clientId Hfalsy. unfold useClientWithHistory. by rewrite Hfalsy.
Qed.

Lemma history_after_checkout_witness :
  let first := step rice_50 (RecordOutbound (outbound_Jane [line "rice" 20])
                                            "t2" "t2" "jane" "tx2") in
  let again := step first (RecordOutbound (outbound_Jane [line "rice" 5])
                                          "t3" "t3" "unused" "tx3") in
  map tx_id (snd (useClientWithHistory first (Some "jane"))) = ["tx2"]
  ∧ snd (useClientWithHistory first (Some "joe")) = []
  ∧ map tx_id (snd (useClientWithHistory again (Some "jane"))) = ["tx2"]
  ∧ map tx_clientId (transactions again) = [None; Some "jane"; None]
  ∧ useClientWithHistory again None = (None, []).
Proof.
  intros first again.
  destruct (history_after_checkout first) as (Hout & _ & _).
  destruct (history_after_checkout again) as (_ & _ & Hnone).
  destruct (Hout (outbound_Jane [line "rice" 5]) "t3" "t3" "unused" "tx3")
    as (_ & _ & _ & Hwiped).
  destruct Hwiped as [_ Hsame]; [reflexivity| |].
  { eexists. split; [left; reflexivity|reflexivity]. }
  split; [reflexivity|]. split; [reflexivity|].
  split; [fold again in Hsame; by rewrite Hsame|].
  split; [reflexivity|]. by apply Hnone.
Defined.

(** ** Inventory summary and low stock *)

Lemma inbound_inventory s options now uuid :
  inventory (step s (RecordInbound options now uuid))
  = if inbound_accepted s options
    then map (fun i =>
                if same (item_id i) (Some (in_itemId options))
                then set_quantity i (item_quantity i + in_quantity options)
                                  (nullish (in_timestamp options) now)
                else i)
             (inventory s)
    else inventory s.
Proof.
  unfold step, inbound_accepted. simpl.
  destruct (Z.ltb_spec 0 (in_quantity options)) as [Hq|Hq]; simpl.
  - rewrite inbound_not_rejected by done. simpl. unfold inbound_updater.
    fold (first_with_id (in_itemId options) (inventory s)).
    destruct (first_with_id _ _) eqn:Hfind; simpl.
    + destruct (known_item s (in_itemId options)) eqn:Hk; [done|].
      apply find_known in Hk. congruence.
    + apply find_known in Hfind. by rewrite Hfind.
  - by rewrite inbound_rejected_quantity.
Qed.

Lemma units_from (l : list InventoryItem) (acc : Z) :
  fold_left (fun sum i => sum + item_quantity i) l acc
  = acc + fold_left (fun sum i => sum + item_quantity i) l 0.
Proof.
  revert acc. induction l as [|i l IH]; intros acc; simpl; [lia|].
  rewrite IH, (IH (0 + item_quantity i)). lia.
Qed.

Lemma units_after_inbound (l : list InventoryItem) (itemId : string) (q : Z)
    (stamp : string) :
  fold_left (fun sum i => sum + item_quantity i)
            (map (fun i => if same (item_id i) (Some itemId)
                           then set_quantity i (item_quantity i + q) stamp else i) l) 0
  = fold_left (fun sum i => sum + item_quantity i) l 0 + Z.of_nat (count_id itemId l) * q.
Proof.
  induction l as [|i l IH]; [done|].
  unfold count_id in *. simpl.
  rewrite units_from, (units_from l (0 + item_quantity i)), IH.
  destruct (same (item_id i) (Some itemId)); simpl; lia.
Qed.

(** X8: a [recordInbound] call that is not rejected leaves the number of
    distinct items as it was and raises the total of units by the quantity
    received, once for each item bearing the id (so by exactly that
    quantity where ids are unique); a rejected call changes neither; and
    the total is at least zero when no quantity is negative. *)
Theorem summary_after_inbound (s : RepositoryState) (options : InboundOptions)
    (now uuid : string) :
  let before := useInventorySummary s in
  let after := useInventorySummary (step s (RecordInbound options now uuid)) in
  distinctItems after = distinctItems before
  ∧ totalUnits after
    = totalUnits before
      + (if inbound_accepted s options
         then Z.of_nat (count_id (in_itemId options) (inventory s)) * in_quantity options
         else 0)
  ∧ (quantities_nonneg s → 0 <= totalUnits before).
Proof.
  cbv zeta. unfold useInventorySummary. simpl. rewrite inbound_inventory.
  split; [|split].
  - destruct (inbound_accepted s options); [by rewrite length_map|done].
  - destruct (inbound_accepted s options); [apply units_after_inbound|lia].
  - unfold quantities_nonneg. induction 1 as [|i l Hi _ IH]; simpl; [lia|].
    rewrite units_from. lia.
Qed.

Lemma summary_after_inbound_witness :
  totalUnits (useInventorySummary (step rice_50 (RecordInbound (inbound "rice" 7) "t2" "tx2")))
  = 57
  ∧ 0 <= totalUnits (useInventorySummary rice_50).
Proof.
  destruct (summary_after_inbound rice_50 (inbound "rice" 7) "t2" "tx2") as (_ & _ & H).
  split; [reflexivity|]. apply H.
  unfold quantities_nonneg. vm_compute inventory. constructor; [simpl; lia|constructor].
Defined.

(** X9: an item without a reorder threshold is never low on stock, and
    receiving stock never makes an item low: an item that was not low before
    a [recordInbound] call is not low after it. *)
Theorem low_stock_after_inbound (s : RepositoryState) (options : InboundOptions)
    (now uuid : string) :
  (∀ item, item_reorderThreshold item = None → isLowStock item = false)
  ∧ (∀ n before after,
       inventory s !! n = Some before →
       inventory (step s (RecordInbound options now uuid)) !! n = Some after →
       isLowStock before = false → isLowStock after = false).
Proof.
  split.
  - intros item Hnone. unfold isLowStock. by rewrite Hnone.
  - intros n before after Hbefore. rewrite inbound_inventory.
    destruct (inbound_accepted s options) eqn:Hacc; [|congruence].
    change (map ?f ?l) with (f <$> l). rewrite list_lookup_fmap, Hbefore. simpl.
    intros [= <-]. destruct (same (item_id before) _); [|done].
    unfold inbound_accepted in Hacc. apply andb_prop in Hacc as [Hq _].
    apply Z.ltb_lt in Hq. unfold isLowStock. simpl.
    destruct (item_reorderThreshold before); [|done].
    intros Hlow%Z.leb_gt. apply Z.leb_gt. lia.
Qed.

Lemma low_stock_after_inbound_witness :
  let rice :=
    {| p_id := Absent; p_name := "Rice"; p_category := None;
       p_barcode := Absent; p_quantity := Some 12;
       p_weightPerUnitLbs := None; p_valuePerUnitUsd := None;
       p_reorderThreshold := Given (Some 10); p_allergens := Absent;
       p_createdAt := None; p_updatedAt := None |} in
  let low := step defaultState (AddOrUpdateItem rice "t0" "rice") in
  map isLowStock (inventory low) = [false]
  ∧ isLowStock (set_quantity (created_item rice "t0" "rice") 17 "t1") = false
  ∧ map isLowStock (inventory (step low (AdjustItemQuantity "rice" (-2) "t1"))) = [true].
Proof.
  intros rice low. split; [reflexivity|]. split; [|reflexivity].
  destruct (low_stock_after_inbound low (inbound "rice" 5) "t1" "tx1") as (_ & H).
  exact (H 0%nat (created_item rice "t0" "rice")
           (set_quantity (created_item rice "t0" "rice") 17 "t1")
           eq_refl eq_refl eq_refl).
Defined.

(** * The pages that call the engine *)

(** ** The cart *)

Lemma map_cond_ids (itemId : string) (g : CartLine → Z) (cart : list CartLine) :
  map cart_itemId
      (map (fun c => if bool_decide (cart_itemId c = itemId)
                     then {| cart_itemId := cart_itemId c; cart_quantity := g c |}
                     else c) cart)
  = map cart_itemId cart.
Proof.
  rewrite List.map_map. apply List.map_ext. intros c. by destruct (bool_decide _).
Qed.

Lemma cart_step_ok cart e : cart_ok cart → cart_ok (cart_step cart e).
Proof.
  intros [Hnd Hne]. destruct e as [itemId quantity | itemId quantity]; simpl.
  - unfold addToCart. destruct itemId as [|a itemId]; [done|]. simpl.
    destruct (List.find _ cart) as [found|] eqn:Hfind.
    + split; [by rewrite map_cond_ids|].
      apply List.Forall_map. eapply Forall_impl; [exact Hne|].
      intros c Hc. by destruct (bool_decide _).
    + split.
      * rewrite map_app. simpl. apply NoDup_app. repeat split; [done| |apply NoDup_singleton].
        intros x Hx ->%list_elem_of_singleton.
        apply list_elem_of_In, in_map_iff in Hx as (c & Hc & Hin).
        eapply List.find_none in Hfind; [|exact Hin].
        simpl in Hfind. by apply bool_decide_eq_false in Hfind.
      * apply Forall_app. split; [done|]. by repeat constructor.
  - unfold updateQuantity. destruct (quantity <=? 0)%Z.
    + split.
      * induction cart as [|c cart IH]; [done|]. simpl in *.
        apply NoDup_cons in Hnd as [Hc Hnd]. apply Forall_cons in Hne as [_ Hne].
        destruct (negb _); [|by apply IH].
        simpl. apply NoDup_cons. split; [|by apply IH].
        intros Hin. apply Hc.
        apply list_elem_of_In, in_map_iff in Hin as (c' & Hc' & Hin).
        apply List.filter_In in Hin as [Hin _].
        apply list_elem_of_In, in_map_iff. by exists c'.
      * apply List.Forall_forall. intros c [Hin _]%List.filter_In.
        rewrite List.Forall_forall in Hne. by apply Hne.
    + split; [by rewrite map_cond_ids|].
      apply List.Forall_map. eapply Forall_impl; [exact Hne|].
      intros c Hc. by destruct (bool_decide _).
Qed.

Lemma cart_step_positive cart e :
  positive_event e →
  Forall (fun l => 0 < cart_quantity l) cart →
  Forall (fun l => 0 < cart_quantity l) (cart_step cart e).
Proof.
  intros He Hpos. destruct e as [itemId quantity | itemId quantity]; simpl in *.
  - unfold addToCart. destruct (negb _); [done|].
    destruct (List.find _ cart) as [found|].
    + apply List.Forall_map. eapply Forall_impl; [exact Hpos|].
      intros c Hc. simpl in Hc. destruct (bool_decide _); simpl; lia.
    + apply Forall_app. split; [done|]. by repeat constructor.
  - unfold updateQuantity. destruct (Z.leb_spec quantity 0).
    + apply List.Forall_forall. intros c [Hin _]%List.filter_In.
      rewrite List.Forall_forall in Hpos. by apply Hpos.
    + apply List.Forall_map. eapply Forall_impl; [exact Hpos|].
      intros c Hc. simpl in Hc. destruct (bool_decide _); simpl; lia.
Qed.

(** X10: whatever is added to the cart and however its quantities are edited,
    starting from the empty cart, no two cart lines name the same item and no
    line has an empty item id; when every addition brings a positive
    quantity, every line of the cart has a positive quantity. *)
Theorem cart_lines_distinct (events : list CartEvent) :
  NoDup (map cart_itemId (cart_run events []))
  ∧ Forall (fun l => cart_itemId l ≠ EmptyString) (cart_run events [])
  ∧ (Forall positive_event events →
     Forall (fun l => 0 < cart_quantity l) (cart_run events [])).
Proof.
  assert (∀ cart, cart_ok cart → cart_ok (cart_run events cart)) as Hok.
  { induction events as [|e events IH]; intros cart Hcart; [done|].
    simpl. apply IH. by apply cart_step_ok. }
  destruct (Hok []) as [Hnd Hne]; [split; constructor|].
  split; [done|]. split; [done|].
  assert (∀ cart, Forall positive_event events →
                  Forall (fun l => 0 < cart_quantity l) cart →
                  Forall (fun l => 0 < cart_quantity l) (cart_run events cart)) as Hpos.
  { clear. induction events as [|e events IH]; intros cart Hev Hcart; [done|].
    apply Forall_cons in Hev as [He Hev]. simpl. apply IH; [done|].
    by apply cart_step_positive. }
  intros Hev. apply Hpos; [done|constructor].
Qed.

Lemma cart_lines_distinct_witness :
  let events := [AddToCart "rice" 1; AddToCart "beans" 2; AddToCart "rice" 1;
                 AddToCart EmptyString 5; UpdateQuantity "beans" 0;
                 AddToCart "beans" 3; UpdateQuantity "rice" 7] in
  cart_run events [] = [line "rice" 7; line "beans" 3]
  ∧ Forall (fun l => 0 < cart_quantity l) (cart_run events []).
Proof.
  intros events. split; [reflexivity|].
  apply cart_lines_distinct. unfold events.
  repeat (constructor; [simpl; first [exact I | lia]|]). constructor.
Defined.

(** ** Check-out *)

Lemma outbound_inventory_flush state prev options now now_client uuid_client uuid_tx :
  inventory (flush (recordOutbound state options now now_client uuid_client uuid_tx)
                   prev)
  = if outbound_accepted prev options
    then outbound_inventory prev (out_items options)
                            (nullish (out_timestamp options) now)
    else inventory prev.
Proof.
  destruct (recordOutbound_cases state options now now_client uuid_client uuid_tx)
    as [Hq | (client & -> & Hq)].
  - rewrite Hq. unfold recordOutbound in Hq. unfold outbound_accepted.
    destruct (out_items options); [done|]. by destruct (upsertClient _ _ _ _).
  - rewrite Hq. simpl. rewrite upsertClient_inventory.
    unfold outbound_updater, outbound_accepted.
    destruct (outbound_txItems prev (out_items options)) eqn:Hitems.
    + apply outbound_txItems_nil in Hitems. by rewrite Hitems.
    + destruct (existsb _ (out_items options)) eqn:Hex; [done|].
      apply outbound_txItems_nil in Hex. congruence.
Qed.

(** In a list whose keys are distinct, a search that accepts one key only
    finds the element bearing it. *)
Lemma find_by_key {A K} (key : A → K) (p : A → bool) (l : list A) (a : A) :
  NoDup (map key l) → In a l → p a = true →
  (∀ b, In b l → p b = true → key b = key a) →
  List.find p l = Some a.
Proof.
  induction l as [|x l IH]; [done|]. simpl.
  intros [Hx Hnd]%NoDup_cons Hin Hpa Hkey.
  destruct (p x) eqn:Hpx.
  - destruct Hin as [->|Hin]; [done|]. exfalso. apply Hx.
    rewrite (Hkey x (or_introl eq_refl) Hpx).
    apply list_elem_of_In, in_map_iff. by exists a.
  - destruct Hin as [->|Hin]; [congruence|]. apply IH; auto.
Qed.

Lemma existsb_false_in {A} (f : A → bool) (l : list A) (x : A) :
  existsb f l = false → In x l → f x = false.
Proof.
  induction l as [|y l IH]; [done|]. simpl.
  intros [Hy Hl]%orb_false_elim [->|Hin]; auto.
Qed.

Lemma lookup_In {A} (l : list A) (n : nat) (x : A) : l !! n = Some x → In x l.
Proof. intros Hn. apply list_elem_of_In, list_elem_of_lookup. by exists n. Qed.

(** The update of an accepted check-out form, on the state [prev] it is
    applied to: the first cart line naming an item decides what is left of
    it. *)
Lemma checkout_inventory_line prev state form location now now_client uuid_client
    uuid_tx n i l :
  NoDup (map cart_itemId (co_cart form)) →
  inventory prev !! n = Some i → In l (co_cart form) →
  item_id i = Some (cart_itemId l) →
  inventory (flush (queued state (RecordOutbound (checkout_options form location)
                                                 now now_client uuid_client uuid_tx))
                   prev) !! n
  = Some (set_quantity i (Z.max 0 (item_quantity i - cart_quantity l)) now).
Proof.
  intros Hcart Hn Hl Hid. cbn [queued]. rewrite outbound_inventory_flush.
  assert (outbound_accepted prev (checkout_options form location) = true) as ->.
  { unfold outbound_accepted. simpl. apply List.existsb_exists. exists l.
    split; [done|]. unfold known_item. apply List.existsb_exists. exists i.
    split; [by eapply lookup_In|]. by apply same_true. }
  cbn [checkout_options out_items out_timestamp nullish].
  rewrite (outbound_inventory_first_line prev (co_cart form) now n i Hn).
  rewrite (find_by_key cart_itemId _ (co_cart form) l); [done|done|done| |].
  - by apply same_true.
  - intros b _ Hb%same_true. congruence.
Qed.

(** X11: the check-out page changes nothing when the cart is empty, the client
    name is blank or some line asks for more than the inventory shown
    holds.  Otherwise the update is applied, once the position has been
    awaited, to the state as other handlers have left it by then: with no
    two cart lines naming the same item, an item a line names is left with
    the quantity it has there less that of the line, clamped at zero, and
    an item no line names is left as it is there.  When item ids are unique
    and the inventory is still the one that was validated, nothing is
    clamped: an item a line names loses exactly the quantity of that line.
    The validation does not cover the wait: when the form is submitted a
    second time while the first submit awaits the position, both pass it,
    and an item holding [q] that a line names for [k] is left with what
    two subtractions of [k], each clamped at zero, leave of [q]. *)
Theorem validated_checkout_exact (s : RepositoryState) (during : list updater)
    (form : CheckOutForm) (location : option GeoLocation)
    (now now_client uuid_client uuid_tx : string) :
  let s' := checkout_handleSubmit s during form location
                                  now now_client uuid_client uuid_tx in
  let prev := flush during s in
  let left (i : InventoryItem) (quantity : Z) : InventoryItem :=
    {| item_id := item_id i;
       item_name := item_name i;
       item_category := item_category i;
       item_barcode := item_barcode i;
       item_quantity := quantity;
       item_weightPerUnitLbs := item_weightPerUnitLbs i;
       item_valuePerUnitUsd := item_valuePerUnitUsd i;
       item_reorderThreshold := item_reorderThreshold i;
       item_allergens := item_allergens i;
       item_createdAt := item_createdAt i;
       item_updatedAt := now |} in
  (co_cart form = [] ∨ trim (co_clientName form) = EmptyString
   ∨ insufficient_stock (inventory s) (co_cart form) = true → s' = s)
  ∧ (co_cart form ≠ [] → NoDup (map cart_itemId (co_cart form)) →
     trim (co_clientName form) ≠ EmptyString →
     insufficient_stock (inventory s) (co_cart form) = false →
     (∀ n i l,
        inventory prev !! n = Some i → In l (co_cart form) →
        item_id i = Some (cart_itemId l) →
        inventory s' !! n
        = Some (left i (Z.max 0 (item_quantity i - cart_quantity l))))
     ∧ (∀ n i,
          inventory prev !! n = Some i →
          (∀ l, In l (co_cart form) → item_id i ≠ Some (cart_itemId l)) →
          inventory s' !! n = Some i)
     ∧ (unique_ids s → inventory prev = inventory s →
        ∀ n i l,
          inventory s !! n = Some i → In l (co_cart form) →
          item_id i = Some (cart_itemId l) →
          cart_quantity l <= item_quantity i
          ∧ inventory s' !! n = Some (left i (item_quantity i - cart_quantity l)))
     ∧ (∀ location1 now1 now_client1 uuid_client1 uuid_tx1,
          during = queued s (RecordOutbound (checkout_options form location1)
                                            now1 now_client1 uuid_client1 uuid_tx1) →
          ∀ n i l,
            inventory s !! n = Some i → In l (co_cart form) →
            item_id i = Some (cart_itemId l) →
            ∃ i', inventory s' !! n = Some i'
                  ∧ item_quantity i'
                    = Z.max 0 (Z.max 0 (item_quantity i - cart_quantity l)
                               - cart_quantity l))).
Proof.
  cbv zeta. unfold checkout_handleSubmit. split.
  - intros [Hcart | [Hname | Hstock]].
    + by rewrite Hcart.
    + destruct (co_cart form); [done|]. by rewrite Hname.
    + destruct (co_cart form); [done|]. destruct (negb _); [done|]. by rewrite Hstock.
  - intros Hfilled Hcart Hname Hstock.
    assert (negb (truthy (Some (trim (co_clientName form)))) = false) as ->.
    { by destruct (trim (co_clientName form)). }
    rewrite Hstock.
    set (prev := flush during s).
    set (op := RecordOutbound (checkout_options form location)
                              now now_client uuid_client uuid_tx).
    assert (match co_cart form with
            | [] => s
            | _ :: _ => flush (queued s op) prev
            end = flush (queued s op) prev) as ->.
    { by destruct (co_cart form). }
    assert (Hline : ∀ n i l,
              inventory prev !! n = Some i → In l (co_cart form) →
              item_id i = Some (cart_itemId l) →
              inventory (flush (queued s op) prev) !! n
              = Some (set_quantity i (Z.max 0 (item_quantity i - cart_quantity l)) now)).
    { intros n i l Hn Hl Hid. by apply checkout_inventory_line. }
    split; [exact Hline|]. split; [|split].
    + intros n i Hn Hnone. subst op. cbn [queued]. rewrite outbound_inventory_flush.
      cbn [checkout_options out_items out_timestamp nullish].
      destruct (outbound_accepted prev _); [|done].
      rewrite (outbound_inventory_first_line prev (co_cart form) now n i Hn).
      rewrite find_all_false; [done|].
      apply List.Forall_forall. intros l Hl. apply same_false.
      intros Heq. by apply (Hnone l Hl).
    + intros Hids Hsame n i l Hn Hl Hid.
      assert (List.find (fun i' => same (item_id i') (Some (cart_itemId l)))
                        (inventory s) = Some i) as Hfind.
      { apply (find_by_key item_id); [done|by eapply lookup_In|by apply same_true|].
        intros b _ Hb%same_true. congruence. }
      assert (cart_quantity l <= item_quantity i) as Hle.
      { unfold insufficient_stock in Hstock.
        apply (existsb_false_in _ _ l) in Hstock; [|done].
        cbv beta in Hstock. rewrite Hfind in Hstock. by apply Z.ltb_ge in Hstock. }
      split; [done|]. rewrite <- Hsame in Hn. rewrite (Hline n i l Hn Hl Hid).
      unfold set_quantity. do 2 f_equal. lia.
    + intros location1 now1 now_client1 uuid_client1 uuid_tx1 Hduring n i l Hn Hl Hid.
      assert (inventory prev !! n
              = Some (set_quantity i (Z.max 0 (item_quantity i - cart_quantity l))
                                   now1)) as Hprev.
      { subst prev. rewrite Hduring. by apply checkout_inventory_line. }
      eexists. split; [by apply (Hline n _ l Hprev Hl)|]. reflexivity.
Qed.

Lemma validated_checkout_exact_witness :
  let form name cart :=
    {| co_clientId := "new"; co_clientName := name; co_clientIdentifier := "J1";
       co_clientContact := EmptyString; co_cart := cart |} in
  let submit during name cart :=
    checkout_handleSubmit rice_50 during (form name cart) None
                          "t3" "t3" "jane" "tx3" in
  let first :=
    queued rice_50 (RecordOutbound (checkout_options (form " Jane " [line "rice" 30])
                                                     None)
                                   "t2" "t2" "jane" "tx2") in
  submit [] " Jane " [line "rice" 51] = rice_50
  ∧ submit [] no_break_spaces [line "rice" 20] = rice_50
  ∧ inventory (submit [] " Jane " [line "rice" 20]) !! 0%nat
    = Some {| item_id := Some "rice"; item_name := "Rice";
              item_category := "Uncategorized"; item_barcode := None;
              item_quantity := 30;
              item_weightPerUnitLbs := 0; item_valuePerUnitUsd := 0;
              item_reorderThreshold := None; item_allergens := None;
              item_createdAt := "t0"; item_updatedAt := "t3" |}
  ∧ ∃ rice, inventory (submit first " Jane " [line "rice" 30]) !! 0%nat = Some rice
            ∧ item_quantity rice = 0.
Proof.
  intros form submit first.
  destruct (validated_checkout_exact rice_50 [] (form " Jane " [line "rice" 51]) None
                                     "t3" "t3" "jane" "tx3") as (Hstock & _).
  destruct (validated_checkout_exact rice_50 [] (form no_break_spaces [line "rice" 20])
                                     None "t3" "t3" "jane" "tx3") as (Hblank & _).
  destruct (validated_checkout_exact rice_50 [] (form " Jane " [line "rice" 20]) None
                                     "t3" "t3" "jane" "tx3") as (_ & Hok).
  destruct (validated_checkout_exact rice_50 first (form " Jane " [line "rice" 30]) None
                                     "t3" "t3" "jane" "tx3") as (_ & Htwice).
  split; [apply Hstock; right; right; reflexivity|].
  split; [apply Hblank; right; left; reflexivity|].
  split.
  - destruct Hok as (_ & _ & Hexact & _);
      [discriminate|apply NoDup_singleton|discriminate|reflexivity|].
    destruct (Hexact (NoDup_singleton _) eq_refl 0%nat
                {| item_id := Some "rice"; item_name := "Rice";
                   item_category := "Uncategorized"; item_barcode := None;
                   item_quantity := 50;
                   item_weightPerUnitLbs := 0; item_valuePerUnitUsd := 0;
                   item_reorderThreshold := None; item_allergens := None;
                   item_createdAt := "t0"; item_updatedAt := "t1" |}
                (line "rice" 20) eq_refl (or_introl eq_refl) eq_refl) as [_ H].
    exact H.
  - destruct Htwice as (_ & _ & _ & Hagain);
      [discriminate|apply NoDup_singleton|discriminate|reflexivity|].
    exact (Hagain None "t2" "t2" "jane" "tx2" eq_refl 0%nat
             {| item_id := Some "rice"; item_name := "Rice";
                item_category := "Uncategorized"; item_barcode := None;
                item_quantity := 50;
                item_weightPerUnitLbs := 0; item_valuePerUnitUsd := 0;
                item_reorderThreshold := None; item_allergens := None;
                item_createdAt := "t0"; item_updatedAt := "t1" |}
             (line "rice" 30) eq_refl (or_introl eq_refl) eq_refl).
Defined.

Lemma outbound_lines_snapshot s items :
  Forall2
    (fun l ti =>
       line_itemId ti = Some (cart_itemId l)
       ∧ line_quantity ti = cart_quantity l
       ∧ ∃ base, first_with_id (cart_itemId l) (inventory s) = Some base
                 ∧ line_name ti = item_name base
                 ∧ line_weightPerUnitLbs ti = item_weightPerUnitLbs base
                 ∧ line_valuePerUnitUsd ti = item_valuePerUnitUsd base)
    (List.filter (fun l => known_item s (cart_itemId l)) items)
    (outbound_txItems s items).
Proof.
  unfold outbound_txItems. induction items as [|l items IH]; [constructor|].
  simpl. unfold outbound_line at 1.
  fold (first_with_id (cart_itemId l) (inventory s)).
  destruct (first_with_id _ _) as [base|] eqn:Hfind.
  - assert (known_item s (cart_itemId l) = true) as ->.
    { destruct (known_item s (cart_itemId l)) eqn:Hk; [done|].
      apply find_known in Hk. congruence. }
    simpl. constructor; [|done]. simpl.
    apply find_in in Hfind as Hbase. destruct Hbase as [_ Hid%same_true].
    split; [done|]. split; [done|]. by exists base.
  - apply find_known in Hfind as ->. done.
Qed.

(** X12: the transaction of a check-out that is not rejected lists exactly the
    cart lines that name an existing item, in cart order: each with the
    line's quantity and the name, weight and value that the first item
    bearing the id had before the call; it is an OUT transaction in the name
    given for the client. *)
Theorem outbound_transaction_lines (s : RepositoryState) (options : OutboundOptions)
    (now now_client uuid_client uuid_tx : string) :
  outbound_accepted s options = true →
  ∃ tx,
    transactions (step s (RecordOutbound options now now_client uuid_client uuid_tx))
    = tx :: transactions s
    ∧ tx_type tx = OUT
    ∧ tx_clientName tx = Some (oc_name (out_client options))
    ∧ tx_timestamp tx = nullish (out_timestamp options) now
    ∧ Forall2
        (fun l ti =>
           line_itemId ti = Some (cart_itemId l)
           ∧ line_quantity ti = cart_quantity l
           ∧ ∃ base, first_with_id (cart_itemId l) (inventory s) = Some base
                     ∧ line_name ti = item_name base
                     ∧ line_weightPerUnitLbs ti = item_weightPerUnitLbs base
                     ∧ line_valuePerUnitUsd ti = item_valuePerUnitUsd base)
        (List.filter (fun l => known_item s (cart_itemId l)) (out_items options))
        (tx_items tx).
Proof.
  intros Hacc. rewrite outbound_transactions, Hacc.
  eexists. split; [reflexivity|]. simpl. split; [done|]. split.
  - unfold upsertClient. by destruct (existing_client _ _).
  - split; [done|]. apply outbound_lines_snapshot.
Qed.

Lemma outbound_transaction_lines_witness :
  ∃ tx,
    transactions (step rice_50 (RecordOutbound
                                  (outbound_Jane [line "nope" 1; line "rice" 20])
                                  "t2" "t2" "jane" "tx2"))
    = tx :: transactions rice_50
    ∧ map line_quantity (tx_items tx) = [20]
    ∧ tx_clientName tx = Some "Jane".
Proof.
  destruct (outbound_transaction_lines rice_50
              (outbound_Jane [line "nope" 1; line "rice" 20]) "t2" "t2" "jane" "tx2")
    as (tx & Htx & _ & Hname & _ & Hlines); [reflexivity|].
  exists tx. split; [exact Htx|]. split; [|exact Hname].
  clear Hname Hlines. vm_compute in Htx. injection Htx as Hhead.
  rewrite <- Hhead. reflexivity.
Defined.

(** ** Check-in *)

Lemma checkin_not_rejected form :
  0 < ci_quantity form →
  (ci_quantity form =? 0)%Z || (ci_quantity form <=? 0)%Z = false.
Proof.
  intros Hq. apply orb_false_intro; [by apply Z.eqb_neq; lia|by apply Z.leb_gt].
Qed.

(** After every item bearing [x] has been replaced by [U], which bears [x]
    too, the first item bearing [x] is [U]. *)
Lemma find_replaced (x : string) (U : InventoryItem) (l : list InventoryItem) :
  item_id U = Some x →
  List.find (fun i => same (item_id i) (Some x))
            (map (fun i => if same (item_id i) (Some x) then U else i) l)
  = if existsb (fun i => same (item_id i) (Some x)) l then Some U else None.
Proof.
  intros HU. induction l as [|i l IH]; [done|]. simpl.
  destruct (same (item_id i) (Some x)) eqn:Hi; simpl.
  - by rewrite (proj2 (same_true _ _) HU).
  - by rewrite Hi.
Qed.

Lemma map_replaced (x : string) (U : InventoryItem) (g : InventoryItem → InventoryItem)
    (l : list InventoryItem) :
  item_id U = Some x →
  map (fun i => if same (item_id i) (Some x) then g i else i)
      (map (fun i => if same (item_id i) (Some x) then U else i) l)
  = map (fun i => if same (item_id i) (Some x) then g U else i) l.
Proof.
  intros HU. rewrite map_map. apply map_ext. intros i.
  destruct (same (item_id i) (Some x)) eqn:Hi.
  - by rewrite (proj2 (same_true _ _) HU).
  - by rewrite Hi.
Qed.

Lemma trim_end_idempotent (s : string) : trim_end (trim_end s) = trim_end s.
Proof.
  induction s as [|c r IH]; [done|]. simpl.
  destruct (trim_end r) as [|d r'] eqn:Hr.
  - destruct (is_space c) eqn:Hc; simpl; [done|]. by rewrite Hc.
  - simpl in IH |- *. by rewrite IH.
Qed.

Lemma trim_start_clean (s : string) : starts_clean (trim_start s).
Proof.
  induction s as [|c r IH]; simpl; [done|].
  by destruct (is_space c) eqn:Hc.
Qed.

Lemma trim_end_clean (s : string) : starts_clean s → starts_clean (trim_end s).
Proof.
  destruct s as [|c r]; simpl; [done|]. intros Hc.
  destruct (trim_end r); simpl; [by rewrite Hc|done].
Qed.

Lemma trim_start_of_clean (s : string) : starts_clean s → trim_start s = s.
Proof. destruct s as [|c r]; simpl; [done|]. by intros ->. Qed.

Lemma trim_idempotent (s : string) : trim (trim s) = trim s.
Proof.
  unfold trim.
  rewrite (trim_start_of_clean (trim_end (trim_start s))).
  - apply trim_end_idempotent.
  - apply trim_end_clean, trim_start_clean.
Qed.

Lemma trimmed_barcode_idempotent (b : option string) :
  trimmed_barcode (trimmed_barcode b) = trimmed_barcode b.
Proof.
  destruct b as [s|]; [|done]. unfold trimmed_barcode at 2 3.
  destruct (truthy (Some (trim s))) eqn:Ht; [|done].
  unfold trimmed_barcode. by rewrite trim_idempotent, Ht.
Qed.

(** What the check-in page asks of [addOrUpdateItem] resolves by the barcode
    of the form alone. *)
Lemma checkin_existing s newItem :
  existing_item s (checkin_partial newItem)
  = match trimmed_barcode (Some (ni_barcode newItem)) with
    | Some B => first_with_barcode B (inventory s)
    | None => None
    end.
Proof.
  unfold existing_item, first_with_barcode. simpl.
  by destruct (trim (ni_barcode newItem)).
Qed.

(** X13: the check-in page changes nothing when the quantity is not positive,
    when a new item has a blank name, or when no existing item is selected.
    A new item is resolved by the trimmed barcode of the form alone.  In the
    cases below the quantity is positive, the name is not blank, and, where
    the position is awaited, no other handler changes the inventory or the
    ledger meanwhile.  When no item bears the barcode (or the form has none)
    and the id drawn is not empty and new, the item is appended with exactly
    the quantity received, and one IN transaction for that quantity is
    logged.  When the first item bearing the barcode has a non-empty id, the
    quantity received is not added to its stock: every item bearing that id
    is overwritten by the fields of the form, its quantity set to zero and
    then to the quantity received, whatever it held before, and one IN
    transaction for that quantity is logged.  When the first item bearing
    the barcode has no id or an empty one, every item with that id is
    overwritten with quantity zero and the page stops there: the stock is
    lost and no transaction is logged. *)
Theorem checkin_new_item (s : RepositoryState) (during : list updater)
    (form : CheckInForm) (location : option GeoLocation)
    (now_item uuid_item now uuid_tx : string) :
  let s' := checkin_handleSubmit s during form location now_item uuid_item now uuid_tx in
  let newItem := ci_newItem form in
  let partial := checkin_partial newItem in
  let received (tx : Transaction) : Prop :=
    tx_type tx = IN
    ∧ tx_timestamp tx = now
    ∧ map line_quantity (tx_items tx) = [ci_quantity form]
    ∧ map line_name (tx_items tx) = [trim (ni_name newItem)] in
  let overwritten (e : InventoryItem) (quantity : Z) (stamp : string) : InventoryItem :=
    {| item_id := item_id e;
       item_name := trim (ni_name newItem);
       item_category := or_else (trim (ni_category newItem)) "Uncategorized";
       item_barcode := trimmed_barcode (Some (ni_barcode newItem));
       item_quantity := quantity;
       item_weightPerUnitLbs := ni_weightPerUnitLbs newItem;
       item_valuePerUnitUsd := ni_valuePerUnitUsd newItem;
       item_reorderThreshold := item_reorderThreshold e;
       item_allergens := item_allergens e;
       item_createdAt := item_createdAt e;
       item_updatedAt := stamp |} in
  (ci_quantity form <= 0
   ∨ (ci_mode form = ModeNew ∧ trim (ni_name newItem) = EmptyString)
   ∨ (ci_mode form = ModeExisting ∧ ci_selectedId form = EmptyString) →
   s' = s)
  ∧ existing_item s partial
    = match trimmed_barcode (Some (ni_barcode newItem)) with
      | Some B => first_with_barcode B (inventory s)
      | None => None
      end
  ∧ (ci_mode form = ModeNew → 0 < ci_quantity form →
     trim (ni_name newItem) ≠ EmptyString →
     match existing_item s partial with
     | None =>
         keeps_stock during →
         uuid_item ≠ EmptyString → unknown_item s uuid_item →
         inventory s'
         = inventory s
           ++ [ {| item_id := Some uuid_item;
                   item_name := trim (ni_name newItem);
                   item_category := or_else (trim (ni_category newItem)) "Uncategorized";
                   item_barcode := trimmed_barcode (Some (ni_barcode newItem));
                   item_quantity := ci_quantity form;
                   item_weightPerUnitLbs := ni_weightPerUnitLbs newItem;
                   item_valuePerUnitUsd := ni_valuePerUnitUsd newItem;
                   item_reorderThreshold := None;
                   item_allergens := None;
                   item_createdAt := now_item;
                   item_updatedAt := now |} ]
         ∧ ∃ tx, transactions s' = tx :: transactions s ∧ received tx
     | Some e =>
         if truthy (item_id e)
         then
           keeps_stock during →
           inventory s'
           = map (fun i => if same (item_id i) (item_id e)
                           then overwritten e (ci_quantity form) now else i)
                 (inventory s)
           ∧ ∃ tx, transactions s' = tx :: transactions s ∧ received tx
         else
           inventory s'
           = map (fun i => if same (item_id i) (item_id e)
                           then overwritten e 0 now_item else i)
                 (inventory s)
           ∧ transactions s' = transactions s
     end).
Proof.
  cbv zeta. split; [|split].
  - unfold checkin_handleSubmit.
    intros [Hq | [[Hmode Hname] | [Hmode Hsel]]].
    + destruct (Z.eqb_spec (ci_quantity form) 0); [done|].
      destruct (Z.leb_spec (ci_quantity form) 0); [done|lia].
    + destruct (_ || _); [done|]. by rewrite Hmode, Hname.
    + destruct (_ || _); [done|]. by rewrite Hmode, Hsel.
  - apply checkin_existing.
  - intros Hmode Hq Hname. unfold checkin_handleSubmit.
    rewrite checkin_not_rejected, Hmode by done.
    assert (negb (truthy (Some (trim (ni_name (ci_newItem form))))) = false) as ->.
    { by destruct (trim (ni_name (ci_newItem form))). }
    set (partial := checkin_partial (ci_newItem form)).
    unfold step. cbn [queued flush fold_left]. unfold addOrUpdateItem.
    destruct (existing_item s partial) as [e|] eqn:He; cbn [fst snd].
    + (* the barcode of the form is borne by [e] *)
      set (U := updated_item e partial now_item).
      assert (HU : U = {| item_id := item_id e;
                          item_name := trim (ni_name (ci_newItem form));
                          item_category :=
                            or_else (trim (ni_category (ci_newItem form)))
                                    "Uncategorized";
                          item_barcode :=
                            trimmed_barcode (Some (ni_barcode (ci_newItem form)));
                          item_quantity := 0;
                          item_weightPerUnitLbs := ni_weightPerUnitLbs (ci_newItem form);
                          item_valuePerUnitUsd := ni_valuePerUnitUsd (ci_newItem form);
                          item_reorderThreshold := item_reorderThreshold e;
                          item_allergens := item_allergens e;
                          item_createdAt := item_createdAt e;
                          item_updatedAt := now_item |}) by reflexivity.
      assert (HidU : item_id U = item_id e) by reflexivity.
      rewrite HidU.
      destruct (item_id e) as [x|] eqn:Hx; [|by rewrite HU].
      destruct (truthy (Some x)) eqn:Htruthy; [|by rewrite HU].
      intros Hkeeps.
      set (s1 := with_inventory s _).
      destruct (Hkeeps s1) as [Hinv Htx].
      rewrite inbound_not_rejected by done. cbn [flush fold_left].
      unfold inbound_updater.
      cbn [checkin_options in_itemId in_quantity in_timestamp nullish].
      rewrite Hinv, Htx. subst s1. cbn [with_inventory inventory transactions].
      rewrite (find_replaced x U) by done.
      assert (existsb (fun i => same (item_id i) (Some x)) (inventory s) = true) as ->.
      { apply List.existsb_exists. exists e.
        split; [by eapply existing_item_in|by apply same_true]. }
      cbn [inventory transactions]. split.
      * rewrite (map_replaced x U) by done. by rewrite HU.
      * eexists. split; [reflexivity|]. by rewrite HU.
    + (* no item bears the barcode: the item is created *)
      intros Hkeeps Hne Hfresh.
      set (created := created_item partial now_item uuid_item).
      assert (Hid : item_id created = Some uuid_item) by reflexivity.
      assert (truthy (Some uuid_item) = true) as Htruthy by (by destruct uuid_item).
      rewrite Hid, Htruthy.
      set (s1 := with_inventory s _).
      destruct (Hkeeps s1) as [Hinv Htx].
      rewrite inbound_not_rejected by done. cbn [flush fold_left].
      unfold inbound_updater.
      cbn [checkin_options in_itemId in_quantity in_timestamp nullish].
      rewrite Hinv, Htx. subst s1. cbn [with_inventory inventory transactions].
      rewrite find_app_none by (by apply find_none_unknown).
      cbn [List.find]. rewrite Hid, (proj2 (same_true _ _) eq_refl).
      cbn [inventory transactions]. split.
      * rewrite map_app. rewrite (map_keep _ _ (inventory s)).
        -- cbn [map]. rewrite Hid, (proj2 (same_true _ _) eq_refl).
           subst created. unfold set_quantity, created_item.
           cbn [item_id item_name item_category item_barcode item_quantity
                item_weightPerUnitLbs item_valuePerUnitUsd item_reorderThreshold
                item_allergens item_createdAt item_updatedAt
                partial checkin_partial
                p_id p_name p_category p_barcode p_quantity p_weightPerUnitLbs
                p_valuePerUnitUsd p_reorderThreshold p_allergens read nullish].
           by rewrite trimmed_barcode_idempotent.
        -- eapply Forall_impl; [exact Hfresh|]. intros i Hi. by apply same_false.
      * eexists. split; [reflexivity|]. done.
Qed.

Lemma checkin_new_item_witness :
  let submit s quantity :=
    checkin_handleSubmit s [] (checkin_beans quantity) None "t1" "u1" "t2" "tx1" in
  let shown (i : InventoryItem) := (item_id i, item_name i, item_quantity i) in
  submit beans_on_shelf 0 = beans_on_shelf
  ∧ map shown (inventory beans_on_shelf) = [(Some "a", "Beans", 5)]
  ∧ map shown (inventory (submit beans_on_shelf 10)) = [(Some "a", "Black beans", 10)]
  ∧ length (transactions (submit beans_on_shelf 10)) = 1%nat
  ∧ map shown (inventory (submit defaultState 10)) = [(Some "u1", "Black beans", 10)]
  ∧ map shown (inventory beans_without_id) = [(None, "Beans", 7)]
  ∧ map shown (inventory (submit beans_without_id 10)) = [(None, "Black beans", 0)]
  ∧ transactions (submit beans_without_id 10) = [].
Proof.
  intros submit shown.
  assert (Hquiet : keeps_stock []) by (by intros st).
  destruct (checkin_new_item beans_on_shelf [] (checkin_beans 0) None
                             "t1" "u1" "t2" "tx1") as (Hrej & _).
  destruct (checkin_new_item beans_on_shelf [] (checkin_beans 10) None
                             "t1" "u1" "t2" "tx1") as (_ & _ & Hknown).
  destruct (checkin_new_item defaultState [] (checkin_beans 10) None
                             "t1" "u1" "t2" "tx1") as (_ & _ & Hfresh).
  destruct (checkin_new_item beans_without_id [] (checkin_beans 10) None
                             "t1" "u1" "t2" "tx1") as (_ & _ & Hlost).
  assert (Hname : trim "Black beans" ≠ EmptyString) by discriminate.
  specialize (Hknown eq_refl eq_refl Hname).
  specialize (Hfresh eq_refl eq_refl Hname).
  specialize (Hlost eq_refl eq_refl Hname).
  destruct (existing_item beans_on_shelf _) as [e|] eqn:He in Hknown;
    vm_compute in He; [injection He as <-|discriminate].
  destruct (existing_item defaultState _) as [e|] eqn:He in Hfresh;
    vm_compute in He; [discriminate|clear He].
  destruct (existing_item beans_without_id _) as [e|] eqn:He in Hlost;
    vm_compute in He; [injection He as <-|discriminate].
  cbn [truthy item_id] in Hknown, Hlost.
  destruct (Hknown Hquiet) as (Hinv_known & tx & Htx_known & _).
  destruct Hfresh as (Hinv_fresh & _); [exact Hquiet|discriminate|constructor|].
  destruct Hlost as (Hinv_lost & Htx_lost).
  split; [apply Hrej; left; simpl; lia|]. split; [reflexivity|].
  subst submit. cbv beta.
  split; [by rewrite Hinv_known|].
  split; [by rewrite Htx_known|].
  split; [by rewrite Hinv_fresh|].
  split; [reflexivity|].
  split; [by rewrite Hinv_lost|].
  by rewrite Htx_lost.
Defined.

(** * The reports page *)

(** ** Maps *)

Lemma Map_get_set {K V} `{EqDecision K} (k k' : K) (v : V) (m : JsMap K V) :
  Map_get k (Map_set k' v m) = if bool_decide (k = k') then Some v else Map_get k m.
Proof.
  induction m as [|[k0 v0] m IH]; simpl.
  - by destruct (bool_decide (k = k')).
  - destruct (bool_decide_reflect (k' = k0)) as [->|Hne]; simpl.
    + by destruct (bool_decide (k = k0)).
    + rewrite IH. destruct (bool_decide_reflect (k = k')) as [->|]; [|done].
      by rewrite bool_decide_eq_false_2.
Qed.

Lemma Map_set_keys {K V} `{EqDecision K} (k : K) (v : V) (m : JsMap K V) :
  map fst (Map_set k v m)
  = if bool_decide (k ∈ map fst m) then map fst m else map fst m ++ [k].
Proof.
  induction m as [|[k0 v0] m IH]; simpl.
  - done.
  - destruct (bool_decide_reflect (k = k0)) as [->|Hne]; simpl.
    + rewrite bool_decide_eq_true_2; [done|]. by left.
    + rewrite IH. destruct (bool_decide_reflect (k ∈ map fst m)) as [Hin|Hnotin].
      * rewrite bool_decide_eq_true_2; [done|]. by right.
      * rewrite bool_decide_eq_false_2; [done|].
        by intros [?|?]%elem_of_cons.
Qed.

Lemma Map_set_NoDup {K V} `{EqDecision K} (k : K) (v : V) (m : JsMap K V) :
  NoDup (map fst m) → NoDup (map fst (Map_set k v m)).
Proof.
  intros Hnd. rewrite Map_set_keys.
  destruct (bool_decide_reflect (k ∈ map fst m)) as [Hin|Hnotin]; [done|].
  apply NoDup_app. repeat split; [done| |apply NoDup_singleton].
  intros x Hx ->%list_elem_of_singleton. done.
Qed.

Lemma fold_NoDup {K V A} `{EqDecision K} (f : JsMap K V → A → JsMap K V)
    (l : list A) (m : JsMap K V) :
  (∀ m a, NoDup (map fst m) → NoDup (map fst (f m a))) →
  NoDup (map fst m) → NoDup (map fst (fold_left f l m)).
Proof.
  intros Hf. revert m. induction l as [|a l IH]; intros m Hm; [done|].
  simpl. apply IH. by apply Hf.
Qed.

(** ** By item *)

Lemma byItem_add_get id m l :
  Map_get id (byItem_add m l)
  = if bool_decide (id = line_itemId l)
    then Some match Map_get id m with
              | Some row => {| row_name := row_name row;
                               row_quantity := row_quantity row + line_quantity l |}
              | None => {| row_name := line_name l;
                           row_quantity := 0 + line_quantity l |}
              end
    else Map_get id m.
Proof.
  unfold byItem_add. rewrite Map_get_set.
  destruct (bool_decide_reflect (id = line_itemId l)) as [->|]; [|done].
  by destruct (Map_get (line_itemId l) m).
Qed.

Lemma byItem_fold_get id lines m :
  Map_get id (fold_left byItem_add lines m)
  = match Map_get id m, List.filter (fun l => same (line_itemId l) id) lines with
    | Some row, ls =>
        Some {| row_name := row_name row;
                row_quantity := row_quantity row + sum_Z (map line_quantity ls) |}
    | None, [] => None
    | None, l :: ls =>
        Some {| row_name := line_name l;
                row_quantity := sum_Z (map line_quantity (l :: ls)) |}
    end.
Proof.
  revert m. induction lines as [|l lines IH]; intros m.
  - simpl. destruct (Map_get id m) as [[n q]|]; [|done]. simpl. do 2 f_equal. lia.
  - cbn [fold_left List.filter]. rewrite IH, byItem_add_get.
    destruct (bool_decide_reflect (id = line_itemId l)) as [->|Hne].
    + rewrite (proj2 (same_true _ _) eq_refl).
      destruct (Map_get (line_itemId l) m) as [[n q]|]; unfold sum_Z;
        cbn [map fold_right row_name row_quantity]; f_equal; f_equal; lia.
    + rewrite (proj2 (same_false (line_itemId l) id)); [done|congruence].
Qed.

Lemma byItem_add_total m l :
  sum_Z (map (fun kv => row_quantity (snd kv)) (byItem_add m l))
  = sum_Z (map (fun kv => row_quantity (snd kv)) m) + line_quantity l.
Proof.
  unfold byItem_add. induction m as [|[k0 v0] m IH]; simpl; [lia|].
  destruct (bool_decide_reflect (line_itemId l = k0)) as [->|Hne]; simpl; [lia|].
  rewrite IH. lia.
Qed.

(** X14: the by-item table of the report has one row for each item id that
    occurs in the selected transactions, in no case two; the row carries the
    name of the first line bearing the id and the sum of the quantities of
    all lines bearing it; and the row quantities add up to the total of all
    line quantities. *)
Theorem byItem_rows (selected : list Transaction) :
  NoDup (map fst (byItem selected))
  ∧ (∀ id,
       Map_get id (byItem selected)
       = match lines_of id selected with
         | [] => None
         | l :: ls =>
             Some {| row_name := line_name l;
                     row_quantity := sum_Z (map line_quantity (l :: ls)) |}
         end)
  ∧ sum_Z (map (fun kv => row_quantity (snd kv)) (byItem selected))
    = sum_Z (map line_quantity (line_items selected)).
Proof.
  unfold byItem. rewrite nested_loops_flatten. split; [|split].
  - apply fold_NoDup; [|constructor].
    intros m a Hm. unfold byItem_add. by apply Map_set_NoDup.
  - intros id. by rewrite byItem_fold_get.
  - assert (∀ lines m,
              sum_Z (map (fun kv => row_quantity (snd kv)) (fold_left byItem_add lines m))
              = sum_Z (map (fun kv => row_quantity (snd kv)) m)
                + sum_Z (map line_quantity lines)) as Htotal.
    { induction lines as [|l lines IH]; intros m; simpl; [lia|].
      rewrite IH, byItem_add_total. lia. }
    by rewrite Htotal.
Qed.

(** ** By client *)





(** ** CSV fields *)








(** ** Import and export *)

(** X17: importing the JSON export of a state into a store that can be read
    and written reloads the page, and what is then loaded is that state,
    whatever the store held before.  A file that is empty or is not JSON, and
    a store that refuses the write, leave the store as it was and end in an
    alert; with no file chosen nothing happens. *)
Theorem import_export_round_trip :
  (∀ (s : RepositoryState) (localStorage : Storage),
     readable localStorage = true → writable localStorage = true →
     snd (handleImport (Some (exportJson s)) (Some localStorage)) = Reloaded
     ∧ as_RepositoryState
         (loadState (fst (handleImport (Some (exportJson s)) (Some localStorage))))
       = Some s)
  ∧ (∀ (file : text) (window : Window),
       file = EmptyText ∨ file = Malformed
       ∨ window = None ∨ (∃ localStorage, window = Some localStorage
                                          ∧ writable localStorage = false) →
       handleImport (Some file) window = (window, Alerted))
  ∧ (∀ window, handleImport None window = (window, Ignored)).
Proof.
  split; [|split].
  - intros s localStorage Hr Hw.
    assert (handleImport (Some (exportJson s)) (Some localStorage)
            = (Some {| stored := Some (Text (JObj (state_object s)));
                       readable := readable localStorage; writable := true |},
               Reloaded)) as ->.
    { unfold handleImport, exportJson, setItem.
      cbn [JSON_parse mbind outcome_bind]. by rewrite Hw. }
    cbn [fst snd]. split; [done|].
    unfold loadState, getItem. cbn [readable stored]. rewrite Hr.
    cbn [falsy JSON_parse try_catch mbind outcome_bind mret outcome_ret].
    rewrite spread_own_state. apply as_RepositoryState_state_object.
  - intros file window [-> | [-> | [-> | (localStorage & -> & Hw)]]];
      try reflexivity.
    + by destruct file.
    + unfold handleImport, setItem. rewrite Hw. by destruct file.
  - reflexivity.
Qed.

Lemma import_export_round_trip_witness :
  as_RepositoryState
    (loadState (fst (handleImport (Some (exportJson rice_50)) (Some corrupt_store))))
  = Some rice_50
  ∧ handleImport (Some Malformed) (Some partial_store) = (Some partial_store, Alerted).
Proof.
  destruct import_export_round_trip as (Hround & Hfail & _).
  split; [by apply Hround|]. apply Hfail. right. by left.
Defined.

(** ** Saving *)

(** X18: the last state saved is the one loaded; and a save that fails, because
    the store refuses the write or there is no global scope, leaves whatever
    was stored, so a later load still returns what an earlier save wrote. *)
Theorem save_last_write_wins :
  (∀ (s1 s2 : RepositoryState) (localStorage : Storage),
     readable localStorage = true → writable localStorage = true →
     as_RepositoryState
       (loadState (saveState s2 (saveState s1 (Some localStorage))))
     = Some s2)
  ∧ (∀ (s : RepositoryState) (localStorage : Storage),
       writable localStorage = false →
       saveState s (Some localStorage) = Some localStorage)
  ∧ (∀ s : RepositoryState, saveState s None = None)
  ∧ (∀ (s1 s2 : RepositoryState) (localStorage : Storage),
       readable localStorage = true → writable localStorage = false →
       stored localStorage = Some (JSON_stringify s1) →
       as_RepositoryState (loadState (saveState s2 (Some localStorage))) = Some s1).
Proof.
  split; [|split; [|split]].
  - intros s1 s2 localStorage Hr Hw.
    unfold saveState, setItem. rewrite Hw. cbn [try_catch writable].
    unfold loadState, getItem. cbn [readable stored]. rewrite Hr.
    cbn [JSON_stringify falsy JSON_parse try_catch mbind outcome_bind mret outcome_ret].
    rewrite spread_own_state. apply as_RepositoryState_state_object.
  - intros s localStorage Hw. unfold saveState, setItem. by rewrite Hw.
  - reflexivity.
  - intros s1 s2 localStorage Hr Hw Hstored.
    unfold saveState, setItem. rewrite Hw. cbn [try_catch].
    unfold loadState, getItem. rewrite Hr, Hstored.
    cbn [JSON_stringify falsy JSON_parse try_catch mbind outcome_bind mret outcome_ret].
    rewrite spread_own_state. apply as_RepositoryState_state_object.
Qed.

Lemma save_last_write_wins_witness :
  as_RepositoryState
    (loadState (saveState beans_on_shelf (saveState rice_50 (Some corrupt_store))))
  = Some beans_on_shelf
  ∧ as_RepositoryState
      (loadState (saveState beans_on_shelf
                            (Some {| stored := Some (JSON_stringify rice_50);
                                     readable := true; writable := false |})))
    = Some rice_50.
Proof.
  destruct save_last_write_wins as (Hlast & _ & _ & Hkept).
  split; [by apply Hlast|]. by apply Hkept.
Defined.

(** * The server's in-memory storage and its routes *)

Import Server.

Lemma Map_get_In {K V} `{EqDecision K} (k : K) (v : V) (m : JsMap K V) :
  Map_get k m = Some v → In (k, v) m.
Proof.
  induction m as [|[k0 v0] m IH]; simpl; [done|].
  destruct (bool_decide_reflect (k = k0)) as [->|Hne].
  - intros [= ->]. by left.
  - intros Hg. right. by apply IH.
Qed.

Lemma keyed_get {K V} `{EqDecision K} (f : V → K) (k : K) (v : V) (m : JsMap K V) :
  Forall (λ kv, fst kv = f (snd kv)) m → Map_get k m = Some v → k = f v.
Proof.
  intros Hm Hg. apply Map_get_In in Hg.
  rewrite List.Forall_forall in Hm. exact (Hm _ Hg).
Qed.

Lemma Map_set_keyed {K V} `{EqDecision K} (f : V → K) (k : K) (v : V)
    (m : JsMap K V) :
  k = f v →
  Forall (λ kv, fst kv = f (snd kv)) m →
  Forall (λ kv, fst kv = f (snd kv)) (Map_set k v m).
Proof.
  intros Hk. induction 1 as [|[k0 v0] m H0 Hm IH]; simpl.
  - by repeat constructor.
  - destruct (bool_decide (k = k0)); by constructor.
Qed.

Lemma Map_set_fresh {K V} `{EqDecision K} (k : K) (v : V) (m : JsMap K V) :
  Map_get k m = None → Map_set k v m = m ++ [(k, v)].
Proof.
  induction m as [|[k0 v0] m IH]; simpl; [done|].
  destruct (bool_decide (k = k0)); [done|].
  intros Hg. by rewrite IH.
Qed.

Lemma Map_set_known {K V} `{EqDecision K} (k : K) (v v0 : V) (m : JsMap K V) :
  Map_get k m = Some v0 → map fst (Map_set k v m) = map fst m.
Proof.
  induction m as [|[k0 v1] m IH]; simpl; [done|].
  destruct (bool_decide_reflect (k = k0)) as [->|Hne]; [done|].
  intros Hg. simpl. by rewrite IH.
Qed.

Lemma call_keyed_by_id (st : MemStorage) (c : Call) :
  keyed_by_id st → keyed_by_id (call st c).
Proof.
  intros (Hu & Hi & Hc & Ht & Hti).
  destruct c; simpl.
  - repeat split; simpl; try done. by apply Map_set_keyed.
  - repeat split; simpl; try done. by apply Map_set_keyed.
  - unfold updateInventoryItem.
    destruct (Map_get id (inventoryItemsMap st)) as [existing|] eqn:Hg; simpl.
    + repeat split; simpl; try done.
      apply Map_set_keyed; [|done]. simpl. by eapply keyed_get.
    + by repeat split.
  - repeat split; simpl; try done. by apply Map_set_keyed.
  - unfold updateClient.
    destruct (Map_get id (clientsMap st)) as [existing|] eqn:Hg; simpl.
    + repeat split; simpl; try done.
      apply Map_set_keyed; [|done]. simpl. by eapply keyed_get.
    + by repeat split.
  - repeat split; simpl; try done. by apply Map_set_keyed.
  - repeat split; simpl; try done. by apply Map_set_keyed.
Qed.

Lemma call_keys_distinct (st : MemStorage) (c : Call) :
  keys_distinct st → keys_distinct (call st c).
Proof.
  intros (Hu & Hi & Hc & Ht & Hti).
  destruct c; simpl.
  - repeat split; simpl; try done. by apply Map_set_NoDup.
  - repeat split; simpl; try done. by apply Map_set_NoDup.
  - unfold updateInventoryItem.
    destruct (Map_get id (inventoryItemsMap st)) as [existing|]; simpl.
    + repeat split; simpl; try done. by apply Map_set_NoDup.
    + by repeat split.
  - repeat split; simpl; try done. by apply Map_set_NoDup.
  - unfold updateClient.
    destruct (Map_get id (clientsMap st)) as [existing|]; simpl.
    + repeat split; simpl; try done. by apply Map_set_NoDup.
    + by repeat split.
  - repeat split; simpl; try done. by apply Map_set_NoDup.
  - repeat split; simpl; try done. by apply Map_set_NoDup.
Qed.

Lemma calls_invariant (cs : list Call) (st : MemStorage) :
  keyed_by_id st → keys_distinct st →
  keyed_by_id (calls cs st) ∧ keys_distinct (calls cs st).
Proof.
  revert st. induction cs as [|c cs IH]; intros st Hk Hd; [done|].
  simpl. apply IH; [by apply call_keyed_by_id|by apply call_keys_distinct].
Qed.

Lemma empty_invariant : keyed_by_id empty ∧ keys_distinct empty.
Proof. split; repeat split; simpl; constructor. Qed.

(** X19: Whatever sequence of storage calls has run since the server
    started, every record is filed under its own id and no map files two
    records under one key; so a lookup by id returns a record that carries
    that id, for inventory items, clients and users alike. *)
Theorem storage_keyed_by_id (cs : list Call) :
  let st := calls cs empty in
  keyed_by_id st ∧ keys_distinct st
  ∧ (∀ id item, getInventoryItem id st = Some item → i_id item = id)
  ∧ (∀ id client, getClient id st = Some client → c_id client = id)
  ∧ (∀ id user, getUser id st = Some user → u_id user = id).
Proof.
  intros st.
  destruct empty_invariant as [Hk0 Hd0].
  destruct (calls_invariant cs empty Hk0 Hd0) as [Hk Hd].
  fold st in Hk, Hd.
  split; [done|]. split; [done|].
  destruct Hk as (Hu & Hi & Hc & _).
  repeat split.
  - intros id item Hg. symmetry. by eapply (keyed_get i_id).
  - intros id client Hg. symmetry. by eapply (keyed_get c_id).
  - intros id user Hg. symmetry. by eapply (keyed_get u_id).
Qed.

Lemma storage_keyed_by_id_witness :
  let st := calls
    [CreateInventoryItem
       (mkInsertInventoryItem "Rice" None None (Some 5) None None None None None)
       1000 "item-1";
     UpdateInventoryItem "item-1"
       (mkInventoryItemPatch None None Absent (Some 9) None None Absent None Absent)
       2000] empty in
  ∃ item, getInventoryItem "item-1" st = Some item ∧ i_id item = "item-1".
Proof.
  intros st.
  destruct (storage_keyed_by_id
    [CreateInventoryItem
       (mkInsertInventoryItem "Rice" None None (Some 5) None None None None None)
       1000 "item-1";
     UpdateInventoryItem "item-1"
       (mkInventoryItemPatch None None Absent (Some 9) None None Absent None Absent)
       2000]) as (_ & _ & H & _).
  eexists. split; [reflexivity|]. apply H. reflexivity.
Defined.

(** X20: [updateInventoryItem]: for an id the storage does not hold, the
    answer is [undefined] and the storage is left as it was.  For an id it
    holds, the record returned keeps the id and the creation time of the
    stored one whatever the patch says, is stamped with the time of the
    call, and is what a later lookup of that id returns; every other id
    reads as before, the listing keeps its order, and the other maps are
    untouched. *)
Theorem updateInventoryItem_effect (id : string) (partial : InventoryItemPatch)
    (now : Date) (st : MemStorage) :
  keyed_by_id st →
  let r := fst (updateInventoryItem id partial now st) in
  let st' := snd (updateInventoryItem id partial now st) in
  match getInventoryItem id st with
  | None => r = None ∧ st' = st
  | Some existing =>
      ∃ updated,
        r = Some updated
        ∧ i_id updated = id
        ∧ i_createdAt updated = i_createdAt existing
        ∧ i_updatedAt updated = now
        ∧ i_quantity updated = spread_def (i_quantity existing) (ip_quantity partial)
        ∧ getInventoryItem id st' = Some updated
        ∧ (∀ id', id' ≠ id → getInventoryItem id' st' = getInventoryItem id' st)
        ∧ map i_id (getInventoryItems st') = map i_id (getInventoryItems st)
        ∧ users st' = users st
        ∧ clientsMap st' = clientsMap st
        ∧ transactionsMap st' = transactionsMap st
        ∧ transactionItemsMap st' = transactionItemsMap st
  end.
Proof.
  intros (_ & Hi & _) r st'. subst r st'.
  unfold getInventoryItem, updateInventoryItem.
  destruct (Map_get id (inventoryItemsMap st)) as [existing|] eqn:Hg; [|done].
  exists (patched_item existing partial now). cbn [fst snd].
  pose proof (keyed_get i_id _ _ _ Hi Hg) as Hid.
  repeat split; try done.
  - cbn [with_inventoryItemsMap inventoryItemsMap].
    rewrite Map_get_set. by rewrite bool_decide_eq_true_2.
  - intros id' Hne. cbn [with_inventoryItemsMap inventoryItemsMap].
    rewrite Map_get_set. by rewrite bool_decide_eq_false_2.
  - unfold getInventoryItems, Map_values.
    cbn [with_inventoryItemsMap inventoryItemsMap].
    rewrite !map_map.
    assert (Hkeys : ∀ m : JsMap string InventoryItem,
               Forall (λ kv, fst kv = i_id (snd kv)) m →
               map (λ x, i_id (snd x)) m = map fst m).
    { induction 1 as [|kv m Hkv Hm IH]; simpl; [done|]. by rewrite Hkv, IH. }
    rewrite !Hkeys; [by eapply Map_set_known|done|].
    apply Map_set_keyed; [|done]. by simpl.
Qed.

Lemma updateInventoryItem_effect_witness :
  let st := calls
    [CreateInventoryItem
       (mkInsertInventoryItem "Rice" None None (Some 5) None None None None None)
       1000 "item-1"] empty in
  ∃ updated,
    fst (updateInventoryItem "item-1"
           (mkInventoryItemPatch None None Absent (Some 9) None None Absent None Absent)
           2000 st) = Some updated
    ∧ i_createdAt updated = 1000 ∧ i_quantity updated = 9.
Proof.
  intros st.
  assert (Hk : keyed_by_id st) by (repeat split; simpl; repeat constructor).
  pose proof (updateInventoryItem_effect "item-1"
    (mkInventoryItemPatch None None Absent (Some 9) None None Absent None Absent)
    2000 st Hk) as H.
  cbv zeta in H.
  change (getInventoryItem "item-1" st) with
    (Some (mkInventoryItem "item-1" "Rice" "Uncategorized" None 5 "0" "0" None []
             None 1000 1000)) in H.
  destruct H as (updated & Hr & _ & Hc & _ & Hq & _).
  exists updated. repeat split; [exact Hr|exact Hc|exact Hq].
Defined.

(** X21: [PATCH /api/inventory/:id] answers 400 exactly when the body is
    rejected and 404 exactly when it is accepted but the id is unknown, and
    in both cases the storage is left as it was; otherwise it answers 200
    with the record that a lookup of the id now returns.  It never answers
    201. *)
Theorem patchInventory_responses {RawPatch : Type}
    (parsePatch : RawPatch → option InventoryItemPatch)
    (id : string) (body : RawPatch) (now : Date) (st : MemStorage) :
  let res := fst (patchInventory parsePatch id body now st) in
  let st' := snd (patchInventory parsePatch id body now st) in
  match parsePatch body, getInventoryItem id st with
  | None, _ => res = Status400 _ "Invalid data" ∧ st' = st
  | Some _, None => res = Status404 _ "Not found" ∧ st' = st
  | Some data, Some existing =>
      res = Status200 _ (patched_item existing data now)
      ∧ getInventoryItem id st' = Some (patched_item existing data now)
  end.
Proof.
  intros res st'. subst res st'. unfold patchInventory, getInventoryItem.
  destruct (parsePatch body) as [data|]; [|done].
  unfold updateInventoryItem.
  destruct (Map_get id (inventoryItemsMap st)) as [existing|] eqn:Hg; [|done].
  cbn [fst snd with_inventoryItemsMap inventoryItemsMap]. split; [done|].
  rewrite Map_get_set. by rewrite bool_decide_eq_true_2.
Qed.

(** X22: [createInventoryItem] fills the defaults of the schema, returns a
    record that a lookup of its id finds, and leaves every other id as it
    was; when the id drawn is not in use, the listing is the old one with
    the new record at its end. *)
Theorem createInventoryItem_effect (insert : InsertInventoryItem) (now : Date)
    (uuid : string) (st : MemStorage) :
  getInventoryItem uuid st = None →
  let item := fst (createInventoryItem insert now uuid st) in
  let st' := snd (createInventoryItem insert now uuid st) in
  i_id item = uuid
  ∧ i_createdAt item = now ∧ i_updatedAt item = now
  ∧ i_quantity item = nullish (ii_quantity insert) 0
  ∧ i_category item = nullish (ii_category insert) "Uncategorized"
  ∧ getInventoryItem uuid st' = Some item
  ∧ (∀ id, id ≠ uuid → getInventoryItem id st' = getInventoryItem id st)
  ∧ getInventoryItems st' = getInventoryItems st ++ [item].
Proof.
  intros Hfresh item st'. subst item st'.
  unfold getInventoryItem, getInventoryItems, createInventoryItem in *.
  cbn [fst snd with_inventoryItemsMap inventoryItemsMap i_id i_createdAt
       i_updatedAt i_quantity i_category].
  repeat split.
  - rewrite Map_get_set. by rewrite bool_decide_eq_true_2.
  - intros id Hne. rewrite Map_get_set. by rewrite bool_decide_eq_false_2.
  - rewrite Map_set_fresh by done. unfold Map_values. by rewrite map_app.
Qed.

Lemma createInventoryItem_effect_witness :
  getInventoryItems
    (snd (createInventoryItem
            (mkInsertInventoryItem "Rice" None None None None None None None None)
            1000 "item-1" empty))
  = [mkInventoryItem "item-1" "Rice" "Uncategorized" None 0 "0" "0" None [] None
       1000 1000].
Proof.
  destruct (createInventoryItem_effect
    (mkInsertInventoryItem "Rice" None None None None None None None None)
    1000 "item-1" empty eq_refl) as (_ & _ & _ & _ & _ & _ & _ & H).
  exact H.
Defined.

Lemma find_app_first {A} (f : A → bool) (l1 l2 : list A) :
  List.find f (l1 ++ l2)
  = match List.find f l1 with Some x => Some x | None => List.find f l2 end.
Proof.
  induction l1 as [|a l1 IH]; simpl; [by destruct (List.find f l2)|].
  by destruct (f a).
Qed.

(** X23: [createClient] does not look at the identifiers already stored:
    when the id drawn is not in use the new client is appended, and a
    lookup of its identifier returns the client that already held that
    identifier if there was one, the new client only otherwise. *)
Theorem createClient_by_identifier (insert : InsertClient) (now : Date)
    (uuid : string) (st : MemStorage) :
  getClient uuid st = None →
  let client := fst (createClient insert now uuid st) in
  let st' := snd (createClient insert now uuid st) in
  getClients st' = getClients st ++ [client]
  ∧ getClientByIdentifier (ic_identifier insert) st'
    = match getClientByIdentifier (ic_identifier insert) st with
      | Some earlier => Some earlier
      | None => Some client
      end.
Proof.
  intros Hfresh client st'. subst client st'.
  unfold getClient, getClients, getClientByIdentifier, createClient in *.
  cbn [fst snd with_clientsMap clientsMap c_id].
  rewrite Map_set_fresh by done. unfold Map_values. rewrite map_app.
  split; [done|].
  rewrite find_app_first. cbn [map snd List.find c_identifier].
  by rewrite bool_decide_eq_true_2.
Qed.

Lemma createClient_by_identifier_witness :
  let st := snd (createClient (mkInsertClient "Jane" "ID-1" None None None)
                   1000 "client-1" empty) in
  c_name <$> getClientByIdentifier "ID-1"
    (snd (createClient (mkInsertClient "Joan" "ID-1" None None None)
            2000 "client-2" st))
  = Some "Jane".
Proof.
  intros st.
  destruct (createClient_by_identifier (mkInsertClient "Joan" "ID-1" None None None)
              2000 "client-2" st eq_refl) as [_ H].
  cbn [ic_identifier] in H. rewrite H. reflexivity.
Defined.

Lemma postItems_app {RawItem : Type}
    (parseItem : RawItem → string → option InsertTransactionItem)
    (good rest : list RawItem) (transactionId : string) (uuid : nat → string) :
  ∀ (n : nat) (acc : list TransactionItem) (st : MemStorage),
  Forall (λ raw, is_Some (parseItem raw transactionId)) good →
  ∃ created st',
    postItems parseItem good transactionId uuid n acc st = (Some (acc ++ created), st')
    ∧ length created = length good
    ∧ postItems parseItem (good ++ rest) transactionId uuid n acc st
      = postItems parseItem rest transactionId uuid (n + length good)
          (acc ++ created) st'
    ∧ transactionsMap st' = transactionsMap st.
Proof.
  induction good as [|raw good IH]; intros n acc st Hgood.
  - exists [], st. simpl. rewrite app_nil_r, Nat.add_0_r. done.
  - inversion Hgood as [|? ? [d Hd] Hrest]; subst.
    simpl. rewrite Hd. cbn [createTransactionItem].
    edestruct (IH (S n)) as (created & st' & Hrun & Hlen & Happ & Htx); [exact Hrest|].
    eexists (_ :: created), st'.
    rewrite Hrun, Happ, <- !app_assoc. simpl.
    rewrite Nat.add_succ_r, Hlen. repeat split; try done.
Qed.

(** X24: [POST /api/transactions] writes as it goes: when the body of the
    transaction is accepted and an item of the list is rejected, the answer
    is 400 but the storage is the one that posting only the items before
    the rejected one would have left: the transaction is stored, and so
    are those items. *)
Theorem postTransaction_rejected_item {RawTransaction RawItem : Type}
    (parseTransaction : RawTransaction → option InsertTransaction)
    (parseItem : RawItem → string → option InsertTransactionItem)
    (txBody : RawTransaction) (data : InsertTransaction)
    (good : list RawItem) (bad : RawItem) (rest : list RawItem)
    (now : Date) (uuid_tx : string) (uuid : nat → string) (st : MemStorage) :
  parseTransaction txBody = Some data →
  Forall (λ raw, is_Some (parseItem raw uuid_tx)) good →
  parseItem bad uuid_tx = None →
  let accepted :=
    postTransaction parseTransaction parseItem txBody (Some good) now uuid_tx uuid st in
  let rejected :=
    postTransaction parseTransaction parseItem txBody (Some (good ++ bad :: rest))
      now uuid_tx uuid st in
  let transaction := fst (createTransaction data now uuid_tx st) in
  fst rejected = Status400 _ "Invalid item data"
  ∧ snd rejected = snd accepted
  ∧ (∃ items, fst accepted = Status201 _ (transaction, items)
              ∧ length items = length good)
  ∧ In transaction (getTransactions (snd rejected)).
Proof.
  intros Htx Hgood Hbad accepted rejected transaction.
  subst accepted rejected transaction. unfold postTransaction. rewrite Htx.
  cbn [createTransaction fst snd t_id].
  set (tx := mkTransaction _ _ _ _ _ _ _ _ _ _ _).
  set (st1 := with_transactionsMap _ _).
  destruct (postItems_app parseItem good (bad :: rest) uuid_tx uuid 0 [] st1 Hgood)
    as (created & st' & Hrun & Hlen & Happ & Hframe).
  rewrite Happ, Hrun. cbn [postItems]. rewrite Hbad. cbn [fst snd app].
  repeat split; [by exists created|].
  unfold getTransactions, Map_values. rewrite Hframe. subst st1.
  cbn [with_transactionsMap transactionsMap].
  apply (in_map snd _ (uuid_tx, tx)). apply Map_get_In.
  rewrite Map_get_set. by rewrite bool_decide_eq_true_2.
Qed.

Lemma postTransaction_rejected_item_witness :
  let rejected :=
    postTransaction sample_parseTransaction sample_parseItem sample_txBody
      (Some [Some ("item-1", "Rice", 2); None; Some ("item-2", "Beans", 1)])
      1000 "tx-1" sample_uuid empty in
  fst rejected = Status400 _ "Invalid item data"
  ∧ length (getTransactions (snd rejected)) = 1%nat
  ∧ length (getTransactionItems "tx-1" (snd rejected)) = 1%nat.
Proof.
  intros rejected.
  assert (Hgood : Forall (λ raw, is_Some (sample_parseItem raw "tx-1"))
                    [Some ("item-1", "Rice", 2)]).
  { repeat constructor. simpl. by eexists. }
  destruct (postTransaction_rejected_item sample_parseTransaction sample_parseItem
              sample_txBody sample_txBody [Some ("item-1", "Rice", 2)] None
              [Some ("item-2", "Beans", 1)] 1000 "tx-1" sample_uuid empty
              eq_refl Hgood eq_refl) as (Hres & Hst & _).
  change ([Some ("item-1", "Rice", 2)] ++ [None; Some ("item-2", "Beans", 1)])
    with [Some ("item-1", "Rice", 2); None; Some ("item-2", "Beans", 1)] in Hres, Hst.
  fold rejected in Hres, Hst.
  split; [exact Hres|]. rewrite Hst. split; reflexivity.
Defined.

Lemma filter_all {A} (f : A → bool) (l : list A) :
  Forall (λ x, f x = true) l → List.filter f l = l.
Proof.
  induction 1 as [|x l Hx Hl IH]; simpl; [done|]. by rewrite Hx, IH.
Qed.

Lemma postItems_accepted {RawItem : Type}
    (parseItem : RawItem → string → option InsertTransactionItem)
    (rawItems : list RawItem) (transactionId : string) (uuid : nat → string) :
  (∀ raw d, parseItem raw transactionId = Some d →
            iti_transactionId d = transactionId) →
  ∀ (n : nat) (acc : list TransactionItem) (st : MemStorage),
  Forall (λ raw, is_Some (parseItem raw transactionId)) rawItems →
  (∀ k, (k < length rawItems)%nat →
        Map_get (uuid (n + k)%nat) (transactionItemsMap st) = None) →
  (∀ j k, (j < k < length rawItems)%nat → uuid (n + j)%nat ≠ uuid (n + k)%nat) →
  ∃ created st',
    postItems parseItem rawItems transactionId uuid n acc st
    = (Some (acc ++ created), st')
    ∧ length created = length rawItems
    ∧ Forall (λ it, ti_transactionId it = transactionId) created
    ∧ transactionItemsMap st'
      = transactionItemsMap st ++ map (λ it, (ti_id it, it)) created.
Proof.
  intros Hfiled.
  induction rawItems as [|raw rawItems IH]; intros n acc st Hok Hfresh Hdistinct.
  - exists [], st. simpl. by rewrite !app_nil_r.
  - inversion Hok as [|? ? [d Hd] Hrest]; subst.
    simpl. rewrite Hd. cbn [createTransactionItem ti_id].
    set (c := mkTransactionItem _ _ _ _ _ _ _).
    set (st1 := with_transactionItemsMap _ _).
    destruct (IH (S n) (acc ++ [c]) st1 Hrest) as (created & st' & Hrun & Hlen & Hall & Hmap).
    + intros k Hk. subst st1. cbn [with_transactionItemsMap transactionItemsMap].
      rewrite Map_get_set. rewrite bool_decide_eq_false_2.
      * replace (S n + k)%nat with (n + S k)%nat by lia. apply Hfresh. simpl. lia.
      * intros Heq. apply (Hdistinct 0%nat (S k)); [simpl; lia|].
        rewrite Nat.add_0_r. replace (n + S k)%nat with (S n + k)%nat by lia.
        by symmetry.
    + intros j k Hjk.
      replace (S n + j)%nat with (n + S j)%nat by lia.
      replace (S n + k)%nat with (n + S k)%nat by lia.
      apply Hdistinct. simpl. lia.
    + exists (c :: created), st'. rewrite Hrun, <- app_assoc. simpl.
      repeat split; [by rewrite Hlen| |].
      * constructor; [|done]. subst c. simpl. by eapply Hfiled.
      * rewrite Hmap. subst st1. cbn [with_transactionItemsMap transactionItemsMap].
        rewrite Map_set_fresh.
        -- by rewrite <- app_assoc.
        -- specialize (Hfresh 0%nat). rewrite Nat.add_0_r in Hfresh.
           apply Hfresh. simpl. lia.
Qed.

(** X25: When [POST /api/transactions] accepts the body and every item,
    the validator files each item under the id of the transaction, and the
    ids drawn for the items are new and distinct, the answer is 201 with
    the transaction and one record per raw item, and reading the items of
    that transaction back gives those filed under its id before, followed
    by exactly the records of the answer, in the order of the request. *)
Theorem posted_items_read_back {RawTransaction RawItem : Type}
    (parseTransaction : RawTransaction → option InsertTransaction)
    (parseItem : RawItem → string → option InsertTransactionItem)
    (txBody : RawTransaction) (data : InsertTransaction)
    (rawItems : list RawItem)
    (now : Date) (uuid_tx : string) (uuid : nat → string) (st : MemStorage) :
  parseTransaction txBody = Some data →
  (∀ raw d, parseItem raw uuid_tx = Some d → iti_transactionId d = uuid_tx) →
  Forall (λ raw, is_Some (parseItem raw uuid_tx)) rawItems →
  (∀ k, (k < length rawItems)%nat →
        Map_get (uuid k) (transactionItemsMap st) = None) →
  (∀ j k, (j < k < length rawItems)%nat → uuid j ≠ uuid k) →
  let posted :=
    postTransaction parseTransaction parseItem txBody (Some rawItems)
      now uuid_tx uuid st in
  ∃ transaction createdItems,
    fst posted = Status201 _ (transaction, createdItems)
    ∧ t_id transaction = uuid_tx
    ∧ length createdItems = length rawItems
    ∧ getTransactionItems (t_id transaction) (snd posted)
      = getTransactionItems (t_id transaction) st ++ createdItems.
Proof.
  intros Htx Hfiled Hok Hfresh Hdistinct posted. subst posted.
  unfold postTransaction. rewrite Htx. cbn [createTransaction fst snd t_id].
  set (tx := mkTransaction _ _ _ _ _ _ _ _ _ _ _).
  set (st1 := with_transactionsMap _ _).
  destruct (postItems_accepted parseItem rawItems uuid_tx uuid Hfiled 0 [] st1 Hok)
    as (created & st' & Hrun & Hlen & Hall & Hmap); [done|done|].
  rewrite Hrun. cbn [fst snd app].
  exists tx, created. repeat split; [done|].
  unfold getTransactionItems, Map_values. rewrite Hmap.
  subst st1. cbn [with_transactionsMap transactionItemsMap].
  rewrite map_app, List.filter_app, map_map. cbn [snd]. rewrite map_id.
  f_equal. apply filter_all.
  eapply Forall_impl; [exact Hall|]. intros it Hit. simpl in *.
  by rewrite bool_decide_eq_true_2.
Qed.

Lemma posted_items_read_back_witness :
  ti_name <$> getTransactionItems "tx-1"
    (snd (postTransaction sample_parseTransaction sample_parseItem sample_txBody
            (Some [Some ("item-1", "Rice", 2); Some ("item-2", "Beans", 1)])
            1000 "tx-1" sample_uuid empty))
  = ["Rice"; "Beans"].
Proof.
  assert (Hok : Forall (λ raw, is_Some (sample_parseItem raw "tx-1"))
                  [Some ("item-1", "Rice", 2); Some ("item-2", "Beans", 1)]).
  { repeat constructor; simpl; by eexists. }
  assert (Hfiled : ∀ raw d, sample_parseItem raw "tx-1" = Some d →
                            iti_transactionId d = "tx-1").
  { intros [[[i n] q]|] d; simpl; [|done]. by intros [= <-]. }
  assert (Hdistinct : ∀ j k, (j < k < 2)%nat → sample_uuid j ≠ sample_uuid k).
  { intros [|[|j]] [|[|k]] [Hjk Hk]; try lia. done. }
  destruct (posted_items_read_back sample_parseTransaction sample_parseItem
              sample_txBody sample_txBody
              [Some ("item-1", "Rice", 2); Some ("item-2", "Beans", 1)]
              1000 "tx-1" sample_uuid empty eq_refl Hfiled Hok
              (λ k _, eq_refl) Hdistinct)
    as (transaction & createdItems & Hres & Hid & _ & Hread).
  rewrite Hid in Hread. rewrite Hread.
  injection Hres as _ <-. reflexivity.
Defined.
